(** * paasta_tools.oom_logger: a shallow embedding and its properties

    The development follows [paasta_tools/oom_logger.py]:

    - text and the character classes of Python's [re] on [str] patterns;
    - the fragment of regular expressions the module uses, with the
      backtracking semantics of [re.search] and capturing groups;
    - the six patterns of [capture_oom_events_from_stdin], as the text the
      source has and as the expressions it denotes, and the scanner;
    - [get_container_env_as_dict] over inspected Python values;
    - the sinks and the loop of [main], over external collaborators that
      may raise.

    Then come the notions the statements need, and the properties: the
    matcher against a relation that lists the ways to match, what the
    kill patterns ask of a line, the process-name slot of the scanner,
    the id of the systemd layout, and the loop of [main]; after them,
    the shape of what the scanner yields, the timestamp read and printed,
    the id of each of the other layouts and the line that names a
    process, the environment of a container, and the calls of [main].

    Text is modelled over the code points 0..255 (one [ascii] per code
    point), which covers every character a pattern of the module names.

    The other file of the repository, [push_to_registry.py], is embedded
    after the loop of [main], in a module of its own: [shlex.split] as
    the lexer of [shlex] runs in POSIX mode, [build_command] and
    [paasta_push_to_registry]; its properties close the development. *)

From Stdlib Require Import ZArith Ascii String.
From stdpp Require Import gmap strings list fin_maps.

Set Default Proof Using "Type".
Set Warnings "-register-all".
Local Open Scope list_scope.

(** ** Text *)

(** A Python [str] restricted to the code points 0..255. *)
Abbreviation str := (list ascii).

(** A literal of the source, written as a Rocq string. *)
Definition lit (s : string) : str := list_ascii_of_string s.

Definition code (a : ascii) : nat := nat_of_ascii a.

Definition between (lo hi n : nat) : bool := (lo <=? n) && (n <=? hi).

(** [\d] on a [str] pattern: the decimal digits; below 256 these are 0-9. *)
Definition is_digit (a : ascii) : bool := between 48 57 (code a).

(** [\s] on a [str] pattern is [str.isspace]: below 256 these are
    TAB LF VT FF CR, FS GS RS US, SPACE, NEL (133) and NBSP (160). *)
Definition is_space (a : ascii) : bool :=
  let n := code a in
  between 9 13 n || between 28 32 n || (n =? 133) || (n =? 160).

Definition is_ascii_alpha (a : ascii) : bool :=
  let n := code a in between 65 90 n || between 97 122 n.

(** [\w] on a [str] pattern is [str.isalnum] or the underscore: below 256,
    the ASCII letters and digits, [_], and the letters and numeric signs
    of Latin-1. *)
Definition is_word (a : ascii) : bool :=
  let n := code a in
  is_digit a || is_ascii_alpha a || (n =? 95)
  || (n =? 170) || between 178 179 n || (n =? 181) || between 185 186 n
  || between 188 190 n || between 192 214 n || between 216 246 n
  || between 248 255 n.

Definition newline : ascii := ascii_of_nat 10.

(** ** Regular expressions *)

(** One item of a bracketed set. *)
Inductive set_item : Type :=
| IChar (a : ascii)              (* a literal or escaped character *)
| IRange (lo hi : ascii)         (* lo-hi *)
| IWord.                         (* \w inside a set *)

(** A pattern element that consumes exactly one character. *)
Inductive cls : Type :=
| CChar (a : ascii)              (* a literal or escaped character *)
| CDigit                         (* \d *)
| CSpace                         (* \s *)
| CWord                          (* \w *)
| CDot                           (* .  (no DOTALL: anything but a newline) *)
| CSet (items : list set_item)   (* [...] *)
| CNotSet (items : list set_item). (* [^...] *)

Definition in_item (i : set_item) (a : ascii) : bool :=
  match i with
  | IChar b => Ascii.eqb a b
  | IRange lo hi => between (code lo) (code hi) (code a)
  | IWord => is_word a
  end.

Definition in_cls (c : cls) (a : ascii) : bool :=
  match c with
  | CChar b => Ascii.eqb a b
  | CDigit => is_digit a
  | CSpace => is_space a
  | CWord => is_word a
  | CDot => negb (Ascii.eqb a newline)
  | CSet items => existsb (fun i => in_item i a) items
  | CNotSet items => negb (existsb (fun i => in_item i a) items)
  end.

(** The fragment of [re] syntax the module's patterns are written in.
    Repetition is greedy and applies to one-character elements; the
    optional group is greedy too. *)
Inductive regex : Type :=
| Eps
| Bol                            (* ^  (no MULTILINE) *)
| Eol                            (* $  (no MULTILINE) *)
| Cls (c : cls)
| Star (c : cls)                 (* c* *)
| Plus (c : cls)                 (* c+ *)
| Rep (n : nat) (c : cls)        (* c{n} *)
| Opt (r : regex)                (* (?:r)? *)
| Grp (i : nat) (r : regex)      (* (r), the i-th capturing group *)
| Cat (r1 r2 : regex).

(** A sequence of elements. *)
Definition cat (rs : list regex) : regex := foldr Cat Eps rs.

(** ** Matching *)

(** The state of a match attempt: how many characters of the subject lie
    before the cursor, what is left after it, and the groups set so far
    (the latest binding of a group first). *)
Record mstate : Type := MState {
  pos : nat;
  rest : str;
  grps : list (nat * str)
}.

Definition group (i : nat) (g : list (nat * str)) : option str :=
  snd <$> List.find (fun p => Nat.eqb (fst p) i) g.

Definition advance (w : str) (rest' : str) (st : mstate) : mstate :=
  MState (pos st + length w) rest' (grps st).

Definition set_group (i : nat) (w : str) (st : mstate) : mstate :=
  MState (pos st) (rest st) ((i, w) :: grps st).

Section Run.
Context {R : Type}.

(** Greedy [c*]: take characters while they are in the class, then give
    them back one at a time until the continuation succeeds. *)
Fixpoint star_run (c : cls) (n : nat) (s : str)
    (k : nat -> str -> option R) : option R :=
  match s with
  | a :: s' =>
      if in_cls c a then
        match star_run c (S n) s' k with
        | Some x => Some x
        | None => k n s
        end
      else k n s
  | [] => k n s
  end.

(** [c{n}]: exactly [n] characters of the class. *)
Fixpoint rep_run (c : cls) (m : nat) (n : nat) (s : str)
    (k : nat -> str -> option R) : option R :=
  match m with
  | 0 => k n s
  | S m' =>
      match s with
      | a :: s' => if in_cls c a then rep_run c m' (S n) s' k else None
      | [] => None
      end
  end.

(** The backtracking matcher, in continuation-passing style: [k] is the
    rest of the pattern, and a [None] from it makes the element try its
    next alternative. *)
Fixpoint run (r : regex) (st : mstate) (k : mstate -> option R) : option R :=
  match r with
  | Eps => k st
  | Bol => if Nat.eqb (pos st) 0 then k st else None
  | Eol =>
      match rest st with
      | [] => k st
      | [a] => if Ascii.eqb a newline then k st else None
      | _ => None
      end
  | Cls c =>
      match rest st with
      | a :: s' => if in_cls c a then k (MState (S (pos st)) s' (grps st)) else None
      | [] => None
      end
  | Star c =>
      star_run c (pos st) (rest st) (fun n s => k (MState n s (grps st)))
  | Plus c =>
      match rest st with
      | a :: s' =>
          if in_cls c a
          then star_run c (S (pos st)) s' (fun n s => k (MState n s (grps st)))
          else None
      | [] => None
      end
  | Rep m c =>
      rep_run c m (pos st) (rest st) (fun n s => k (MState n s (grps st)))
  | Opt r' =>
      match run r' st k with
      | Some x => Some x
      | None => k st
      end
  | Grp i r' =>
      run r' st (fun st' =>
        k (set_group i (take (pos st' - pos st) (rest st)) st'))
  | Cat r1 r2 => run r1 st (fun st' => run r2 st' k)
  end.
End Run.

(** [pattern.match] at offset [n], the subject from there on being [s]. *)
Definition match_at (r : regex) (n : nat) (s : str) : option (list (nat * str)) :=
  run r (MState n s []) (fun st => Some (grps st)).

(** [pattern.search(subject)]: the first offset at which the pattern
    matches, scanning from the left. *)
Fixpoint search_from (r : regex) (n : nat) (s : str) : option (list (nat * str)) :=
  match match_at r n s with
  | Some g => Some g
  | None =>
      match s with
      | [] => None
      | _ :: s' => search_from r (S n) s'
      end
  end.

Definition search (r : regex) (s : str) : option (list (nat * str)) :=
  search_from r 0 s.

(** ** Pattern syntax

    [re.compile] for the fragment above, so that each pattern of the
    module is stated as the text the source has and as the expression it
    denotes.  [verbose] is [re.VERBOSE]: outside a set, whitespace is
    skipped and [#] starts a comment that runs to the end of the line. *)

Definition chars (s : string) : list regex :=
  map (fun a => Cls (CChar a)) (lit s).

Definition is_ascii_punct (a : ascii) : bool :=
  let n := code a in
  between 33 47 n || between 58 64 n || between 91 96 n || between 123 126 n.

(** An escape outside a set. *)
Definition parse_escape (a : ascii) : option cls :=
  if Ascii.eqb a "d" then Some CDigit
  else if Ascii.eqb a "s" then Some CSpace
  else if Ascii.eqb a "w" then Some CWord
  else if is_ascii_punct a then Some (CChar a)
  else None.

(** The items of a set, up to the closing bracket. *)
Fixpoint parse_items (fuel : nat) (s : str) : option (list set_item * str) :=
  match fuel with
  | 0 => None
  | S fuel' =>
      match s with
      | [] => None
      | "]"%char :: s' => Some ([], s')
      | "\"%char :: a :: s' =>
          if Ascii.eqb a "w" then
            '(its, s'') ← parse_items fuel' s'; Some (IWord :: its, s'')
          else if is_ascii_punct a then
            '(its, s'') ← parse_items fuel' s'; Some (IChar a :: its, s'')
          else None
      | a :: "-"%char :: b :: s' =>
          if Ascii.eqb b "]" then
            '(its, s'') ← parse_items fuel' ("-"%char :: b :: s');
            Some (IChar a :: its, s'')
          else if Ascii.eqb b "\" then None
          else '(its, s'') ← parse_items fuel' s'; Some (IRange a b :: its, s'')
      | a :: s' => '(its, s'') ← parse_items fuel' s'; Some (IChar a :: its, s'')
      end
  end.

Definition parse_set (s : str) : option (cls * str) :=
  match s with
  | "^"%char :: s' => '(its, s'') ← parse_items (length s) s'; Some (CNotSet its, s'')
  | _ => '(its, s') ← parse_items (length s) s; Some (CSet its, s')
  end.

Definition digit_value (a : ascii) : nat := code a - 48.

Fixpoint parse_count (acc : nat) (s : str) : option (nat * str) :=
  match s with
  | "}"%char :: s' => Some (acc, s')
  | a :: s' => if is_digit a then parse_count (10 * acc + digit_value a) s' else None
  | [] => None
  end.

(** What was parsed just before a quantifier. *)
Inductive atom : Type :=
| AOne (c : cls)                 (* a one-character element *)
| AGroup (r : regex)             (* a non-capturing group *)
| AOther (r : regex).            (* an anchor or a capturing group *)

Definition atom_regex (a : atom) : regex :=
  match a with
  | AOne c => Cls c
  | AGroup r => r
  | AOther r => r
  end.

(** An optional quantifier after an atom. *)
Definition parse_quant (a : atom) (s : str) : option (regex * str) :=
  match s with
  | "*"%char :: s' => match a with AOne c => Some (Star c, s') | _ => None end
  | "+"%char :: s' => match a with AOne c => Some (Plus c, s') | _ => None end
  | "?"%char :: s' =>
      match a with
      | AOne c => Some (Opt (Cls c), s')
      | AGroup r => Some (Opt r, s')
      | AOther _ => None
      end
  | "{"%char :: s' =>
      match a with
      | AOne c => '(n, s'') ← parse_count 0 s'; Some (Rep n c, s'')
      | _ => None
      end
  | _ => Some (atom_regex a, s)
  end.

Fixpoint skip_comment (s : str) : str :=
  match s with
  | [] => []
  | a :: s' => if Ascii.eqb a newline then s' else skip_comment s'
  end.

(** In verbose mode, drop the whitespace and comments in front of [s]. *)
Fixpoint skip_blank (fuel : nat) (s : str) : str :=
  match fuel with
  | 0 => s
  | S fuel' =>
      match s with
      | a :: s' =>
          if is_space a then skip_blank fuel' s'
          else if Ascii.eqb a "#" then skip_blank fuel' (skip_comment s')
          else s
      | [] => []
      end
  end.

(** A sequence of quantified atoms up to a closing parenthesis or the end
    of the pattern; [gi] is the number of the next capturing group.
    Alternation and the other constructs of [re] are not in the fragment. *)
Fixpoint parse_seq (fuel : nat) (verbose : bool) (gi : nat) (s : str)
    : option (list regex * nat * str) :=
  match fuel with
  | 0 => None
  | S fuel' =>
      let s := if verbose then skip_blank (length s) s else s in
      let item (a : atom) (gi' : nat) (s' : str) :=
        let s' := if verbose then skip_blank (length s') s' else s' in
        '(r, s'') ← parse_quant a s';
        '(rs, gi'', s''') ← parse_seq fuel' verbose gi' s'';
        Some (r :: rs, gi'', s''') in
      match s with
      | [] => Some ([], gi, [])
      | ")"%char :: _ => Some ([], gi, s)
      | "|"%char :: _ => None
      | "^"%char :: s' => item (AOther Bol) gi s'
      | "$"%char :: s' => item (AOther Eol) gi s'
      | "."%char :: s' => item (AOne CDot) gi s'
      | "\"%char :: a :: s' => c ← parse_escape a; item (AOne c) gi s'
      | "["%char :: s' => '(c, s'') ← parse_set s'; item (AOne c) gi s''
      | "("%char :: "?"%char :: ":"%char :: s' =>
          '(rs, gi', s'') ← parse_seq fuel' verbose gi s';
          match s'' with
          | ")"%char :: s''' => item (AGroup (cat rs)) gi' s'''
          | _ => None
          end
      | "("%char :: "?"%char :: _ => None
      | "("%char :: s' =>
          '(rs, gi', s'') ← parse_seq fuel' verbose (S gi) s';
          match s'' with
          | ")"%char :: s''' => item (AOther (Grp gi (cat rs))) gi' s'''
          | _ => None
          end
      | a :: s' =>
          if existsb (Ascii.eqb a) (lit "*+?{}\") then None
          else item (AOne (CChar a)) gi s'
      end
  end.

Definition re_compile (verbose : bool) (pattern : string) : option regex :=
  match parse_seq (S (String.length pattern)) verbose 1 (lit pattern) with
  | Some (rs, _, []) => Some (cat rs)
  | _ => None
  end.

(** ** The patterns of [capture_oom_events_from_stdin] *)

Module Source.
(** The pattern texts, as the source has them. *)

Definition process_name_regex : string :=
  "^\d+\s[a-zA-Z0-9\-]+\s.*\]\s(.+)\sinvoked\soom-killer:".

Definition oom_regex_docker : string :=
  "^(\d+)\s([a-zA-Z0-9\-]+)\s.*Task in /docker/(\w{12})\w+ killed as a".

Definition oom_regex_kubernetes : string :=
  "
        ^(\d+)\s # timestamp
        ([a-zA-Z0-9\-]+) # hostname
        \s.*Task\sin\s/kubepods/(?:[a-zA-Z]+/)? # start of message; non capturing, optional group for the qos cgroup
        pod[-\w]+/(\w{12}(?:\w{52})?)\w*\s # Match 'pod' followed by alphanumeric and hyphen characters, then capture 12 characters, optionally followed by 52 characters for container id (12 char for docker and 64 char if we're using containerd), and then zero or more word characters
        killed\sas\sa*  # eom
        ".

Definition oom_regex_kubernetes_containerd_systemd_cgroup : string :=
  "
        ^(\d+)\s # timestamp
        ([a-zA-Z0-9\-]+) # hostname
        \s.*oom-kill:.*task_memcg=/system\.slice/.*nerdctl-(\w{64})\w*\.scope,.*$ # loosely match systemd slice and containerid
        ".

Definition oom_regex_kubernetes_structured : string :=
  "
        ^(\d+)\s # timestamp
        ([a-zA-Z0-9\-]+) # hostname
        \s.*oom-kill:.*task_memcg=/kubepods/(?:[a-zA-Z]+/)? # start of message; non-capturing, optional group for the qos cgroup
        pod[-\w]+/(\w{12}(?:\w{52})?)\w*,.*$ # containerid
        ".

Definition oom_regex_kubernetes_systemd_cgroup : string :=
  "
        ^(\d+)\s # timestamp
        ([a-zA-Z0-9\-]+) # hostname
        \s.*oom-kill:.*task_memcg=/kubepods\.slice/[^,]+docker-(\w{12})\w+\.scope,.*$ # loosely match systemd slice and containerid
        ".
End Source.

(** [[a-zA-Z0-9\-]], the characters of a hostname. *)
Definition host_set : cls :=
  CSet [IRange "a" "z"; IRange "A" "Z"; IRange "0" "9"; IChar "-"].

(** [[a-zA-Z]] and [[-\w]]. *)
Definition alpha_set : cls := CSet [IRange "a" "z"; IRange "A" "Z"].
Definition pod_set : cls := CSet [IChar "-"; IWord].

Definition process_name_regex : regex :=
  cat ([Bol; Plus CDigit; Cls CSpace; Plus host_set; Cls CSpace; Star CDot;
        Cls (CChar "]"); Cls CSpace; Grp 1 (cat [Plus CDot]); Cls CSpace]
       ++ chars "invoked" ++ [Cls CSpace] ++ chars "oom-killer:").

Definition oom_regex_docker : regex :=
  cat ([Bol; Grp 1 (cat [Plus CDigit]); Cls CSpace;
        Grp 2 (cat [Plus host_set]); Cls CSpace; Star CDot]
       ++ chars "Task in /docker/"
       ++ [Grp 3 (cat [Rep 12 CWord]); Plus CWord]
       ++ chars " killed as a").

Definition oom_regex_kubernetes : regex :=
  cat ([Bol; Grp 1 (cat [Plus CDigit]); Cls CSpace;
        Grp 2 (cat [Plus host_set]); Cls CSpace; Star CDot]
       ++ chars "Task" ++ [Cls CSpace] ++ chars "in" ++ [Cls CSpace]
       ++ chars "/kubepods/"
       ++ [Opt (cat [Plus alpha_set; Cls (CChar "/")])]
       ++ chars "pod" ++ [Plus pod_set; Cls (CChar "/");
           Grp 3 (cat [Rep 12 CWord; Opt (cat [Rep 52 CWord])]);
           Star CWord; Cls CSpace]
       ++ chars "killed" ++ [Cls CSpace] ++ chars "as"
       ++ [Cls CSpace; Star (CChar "a")]).

Definition oom_regex_kubernetes_containerd_systemd_cgroup : regex :=
  cat ([Bol; Grp 1 (cat [Plus CDigit]); Cls CSpace;
        Grp 2 (cat [Plus host_set]); Cls CSpace; Star CDot]
       ++ chars "oom-kill:" ++ [Star CDot]
       ++ chars "task_memcg=/system.slice/" ++ [Star CDot]
       ++ chars "nerdctl-"
       ++ [Grp 3 (cat [Rep 64 CWord]); Star CWord]
       ++ chars ".scope," ++ [Star CDot; Eol]).

Definition oom_regex_kubernetes_structured : regex :=
  cat ([Bol; Grp 1 (cat [Plus CDigit]); Cls CSpace;
        Grp 2 (cat [Plus host_set]); Cls CSpace; Star CDot]
       ++ chars "oom-kill:" ++ [Star CDot]
       ++ chars "task_memcg=/kubepods/"
       ++ [Opt (cat [Plus alpha_set; Cls (CChar "/")])]
       ++ chars "pod" ++ [Plus pod_set; Cls (CChar "/");
           Grp 3 (cat [Rep 12 CWord; Opt (cat [Rep 52 CWord])]);
           Star CWord; Cls (CChar ","); Star CDot; Eol]).

Definition oom_regex_kubernetes_systemd_cgroup : regex :=
  cat ([Bol; Grp 1 (cat [Plus CDigit]); Cls CSpace;
        Grp 2 (cat [Plus host_set]); Cls CSpace; Star CDot]
       ++ chars "oom-kill:" ++ [Star CDot]
       ++ chars "task_memcg=/kubepods.slice/"
       ++ [Plus (CNotSet [IChar ","])]
       ++ chars "docker-"
       ++ [Grp 3 (cat [Rep 12 CWord]); Plus CWord]
       ++ chars ".scope," ++ [Star CDot; Eol]).

(** The recognisers of a kill line, in the order the scanner tries them. *)
Definition event_detail_regexes : list regex :=
  [ oom_regex_docker;
    oom_regex_kubernetes;
    oom_regex_kubernetes_structured;
    oom_regex_kubernetes_systemd_cgroup;
    oom_regex_kubernetes_containerd_systemd_cgroup ].

(** ** The scanner *)

(** [r.group(i)] of a match in which group [i] took part, as all three
    groups of every pattern above do. *)
Definition group_str (i : nat) (g : list (nat * str)) : str :=
  default [] (group i g).

(** [int] on a run of decimal digits, which is what group 1 holds. *)
Definition int_of_str (s : str) : Z :=
  fold_left (fun acc a => (10 * acc + Z.of_nat (digit_value a))%Z) s 0%Z.

(** What the scanner yields: [(timestamp, hostname, container_id,
    process_name)]. *)
Definition occurrence : Type := Z * str * str * str.

(** [for expression in event_detail_regexes: r = expression.search(syslog);
    if r: ...; break]: the match of the first expression that has one. *)
Fixpoint first_match (expressions : list regex) (syslog : str)
    : option (list (nat * str)) :=
  match expressions with
  | [] => None
  | expression :: expressions' =>
      match search expression syslog with
      | Some r => Some r
      | None => first_match expressions' syslog
      end
  end.

(** The slot after the process-name pattern has seen the line. *)
Definition note_process_name (process_name syslog : str) : str :=
  match search process_name_regex syslog with
  | Some r => group_str 1 r
  | None => process_name
  end.

(** The body of [while True], over what [sys.stdin.readline()] returns
    call after call; the end of input is the end of the list or an empty
    line, which is what [readline] returns there. *)
Fixpoint scan (process_name : str) (stdin : list str) : list occurrence :=
  match stdin with
  | [] => []
  | syslog :: stdin' =>
      match syslog with
      | [] => []
      | _ :: _ =>
          let process_name := note_process_name process_name syslog in
          match first_match event_detail_regexes syslog with
          | Some r =>
              (int_of_str (group_str 1 r), group_str 2 r, group_str 3 r,
               process_name) :: scan [] stdin'
          | None => scan process_name stdin'
          end
      end
  end.

(** The generator starts with an empty process name. *)
Definition capture_oom_events_from_stdin (stdin : list str) : list occurrence :=
  scan [] stdin.

(** ** Python values and exceptions *)

(** What [json.loads] and [inspect_container] return. A dict is kept as
    its items in order, each key once. *)
Inductive pyval : Type :=
| PNone
| PBool (b : bool)
| PInt (z : Z)
| PFloat (repr : str)
| PStr (s : str)
| PList (items : list pyval)
| PDict (items : list (str * pyval)).

Inductive exn : Type :=
| APIError                       (* docker.errors.APIError *)
| RpcError                       (* grpc.RpcError *)
| UnicodeDecodeError
| JSONDecodeError
| AttributeError
| TypeError
| SystemExit (status : Z)
| OtherError (name : str).       (* anything else a collaborator raises *)

(** A call either returns a value or raises. *)
Inductive outcome (A : Type) : Type :=
| Returns (a : A)
| Raises (e : exn).
Arguments Returns {A} a.
Arguments Raises {A} e.

Global Instance outcome_ret : MRet outcome := fun A a => Returns a.
Global Instance outcome_bind : MBind outcome := fun A B f c =>
  match c with
  | Returns a => f a
  | Raises e => Raises e
  end.

(** ** [get_container_env_as_dict] *)

Fixpoint dict_find (key : str) (items : list (str * pyval)) : option pyval :=
  match items with
  | [] => None
  | (k, v) :: items' => if decide (k = key) then Some v else dict_find key items'
  end.

(** [obj.get(key, default)]: only a dict has the method. *)
Definition py_get (obj : pyval) (key : str) (dflt : pyval) : outcome pyval :=
  match obj with
  | PDict items => Returns (default dflt (dict_find key items))
  | _ => Raises AttributeError
  end.

(** [for i in obj]: the items of a list, the characters of a string, the
    keys of a dict; nothing else here is iterable. *)
Definition py_iter (obj : pyval) : outcome (list pyval) :=
  match obj with
  | PList items => Returns items
  | PStr s => Returns (map (fun a => PStr [a]) s)
  | PDict items => Returns (map (fun kv => PStr (fst kv)) items)
  | _ => Raises TypeError
  end.

(** [name, _, value = s.partition("=")]: split at the first [=]; without
    one, the whole of [s] is the name and the value is empty. *)
Fixpoint partition_eq (s : str) : str * str :=
  match s with
  | [] => ([], [])
  | a :: s' =>
      if Ascii.eqb a "=" then ([], s')
      else let '(name, value) := partition_eq s' in (a :: name, value)
  end.

(** [i.partition("=")]: only a string has the method. *)
Definition py_partition (i : pyval) : outcome (str * str) :=
  match i with
  | PStr s => Returns (partition_eq s)
  | _ => Raises AttributeError
  end.

(** The loop [for i in env: ...; env_vars[name] = value]. *)
Fixpoint fill_env (env : list pyval) (env_vars : gmap str str)
    : outcome (gmap str str) :=
  match env with
  | [] => Returns env_vars
  | i :: env' =>
      '(name, value) ← py_partition i;
      fill_env env' (<[name := value]> env_vars)
  end.

Definition get_container_env_as_dict (is_cri_containerd : bool)
    (container_inspect : pyval) : outcome (gmap str str) :=
  let env_vars : gmap str str := ∅ in
  '(config, env) ←
    (if is_cri_containerd then
       config ← py_get container_inspect (lit "process") PNone;
       env ← py_get config (lit "env") (PList []);
       Returns (config, env)
     else
       config ← py_get container_inspect (lit "Config") PNone;
       env ← py_get config (lit "Env") (PList []);
       Returns (config, env));
  match config with
  | PNone => Returns env_vars
  | _ => items ← py_iter env; fill_env items env_vars
  end.

(** ** The event record and the text of the sinks *)

Record LogLine : Type := mkLogLine {
  timestamp : Z;
  hostname : str;
  container_id : str;
  cluster : str;
  service : str;
  instance : str;
  process_name : str;
  mesos_container_id : str;
  mem_limit : str
}.

(** [env_vars.get(key, default)]. *)
Definition env_get (env_vars : gmap str str) (key : string) (dflt : string) : str :=
  default (lit dflt) (env_vars !! lit key).

(** Lines 287-301 of [main]: the record built for one occurrence from the
    environment of its container. *)
Definition make_log_line (cluster : str) (occ : occurrence)
    (env_vars : gmap str str) : LogLine :=
  let '(timestamp, hostname, container_id, process_name) := occ in
  let service := env_get env_vars "PAASTA_SERVICE" "unknown" in
  let instance := env_get env_vars "PAASTA_INSTANCE" "unknown" in
  let mesos_container_id := env_get env_vars "MESOS_CONTAINER_NAME" "mesos-null" in
  let mem_limit := env_get env_vars "PAASTA_RESOURCE_MEM" "unknown" in
  mkLogLine timestamp hostname container_id cluster service instance
    process_name mesos_container_id mem_limit.

(** [%d] of a timestamp. *)
Definition digit_char (n : nat) : ascii := ascii_of_nat (48 + n).

Fixpoint digits_of (fuel : nat) (n : N) (acc : str) : str :=
  match fuel with
  | 0 => acc
  | S fuel' =>
      let acc' := digit_char (N.to_nat (n mod 10)) :: acc in
      if (n <? 10)%N then acc' else digits_of fuel' (n / 10)%N acc'
  end.

Definition format_d (z : Z) : str :=
  let n := Z.abs_N z in
  let ds := digits_of (S (N.to_nat (N.log2 n))) n [] in
  if (z <? 0)%Z then "-"%char :: ds else ds.

Definition dq : str := [ascii_of_nat 34].

(** A JSON member [key: value] with the value between double quotes. *)
Definition quoted_member (key : string) (value : str) : str :=
  dq ++ lit key ++ dq ++ lit ": " ++ dq ++ value ++ dq.

(** The line [log_to_clog] sends. *)
Definition clog_line (log_line : LogLine) : str :=
  lit "{" ++ dq ++ lit "timestamp" ++ dq ++ lit ": " ++ format_d (timestamp log_line)
  ++ lit ", " ++ quoted_member "hostname" (hostname log_line)
  ++ lit ", " ++ quoted_member "container_id" (container_id log_line)
  ++ lit ", " ++ quoted_member "cluster" (cluster log_line)
  ++ lit ", " ++ quoted_member "service" (service log_line)
  ++ lit ", " ++ quoted_member "instance" (instance log_line)
  ++ lit ", " ++ quoted_member "process_name" (process_name log_line)
  ++ lit ", " ++ quoted_member "mesos_container_id" (mesos_container_id log_line)
  ++ lit ", " ++ quoted_member "mem_limit" (mem_limit log_line)
  ++ lit "}".

(** The sentence [log_to_paasta] sends. *)
Definition paasta_line (log_line : LogLine) : str :=
  lit "oom-killer killed "
  ++ (match process_name log_line with
      | [] => lit "a process"
      | _ :: _ => lit "a " ++ process_name log_line ++ lit " process"
      end)
  ++ lit " on " ++ hostname log_line
  ++ lit " (container_id: " ++ container_id log_line ++ lit ").".

(** ** UTF-8 *)

(** [bytes.decode("utf-8")] with strict error handling: the well-formed
    byte sequences of the Unicode standard, and nothing else. [None] is
    [UnicodeDecodeError]. *)
Definition cont (b : N) : bool := ((0x80 <=? b) && (b <=? 0xBF))%N.

Definition low6 (b : N) : N := (b mod 64)%N.

Fixpoint utf8_decode (bs : list N) : option (list N) :=
  match bs with
  | [] => Some []
  | b0 :: t0 =>
      if (b0 <? 0x80)%N then cons b0 <$> utf8_decode t0
      else if ((0xC2 <=? b0) && (b0 <=? 0xDF))%N then
        match t0 with
        | b1 :: t1 =>
            if cont b1
            then cons ((b0 mod 32) * 64 + low6 b1)%N <$> utf8_decode t1
            else None
        | _ => None
        end
      else if ((0xE0 <=? b0) && (b0 <=? 0xEF))%N then
        match t0 with
        | b1 :: b2 :: t2 =>
            let lo := if (b0 =? 0xE0)%N then 0xA0%N else 0x80%N in
            let hi := if (b0 =? 0xED)%N then 0x9F%N else 0xBF%N in
            if ((lo <=? b1) && (b1 <=? hi))%N && cont b2
            then cons (((b0 mod 16) * 64 + low6 b1) * 64 + low6 b2)%N
                   <$> utf8_decode t2
            else None
        | _ => None
        end
      else if ((0xF0 <=? b0) && (b0 <=? 0xF4))%N then
        match t0 with
        | b1 :: b2 :: b3 :: t3 =>
            let lo := if (b0 =? 0xF0)%N then 0x90%N else 0x80%N in
            let hi := if (b0 =? 0xF4)%N then 0x8F%N else 0xBF%N in
            if ((lo <=? b1) && (b1 <=? hi))%N && cont b2 && cont b3
            then cons ((((b0 mod 8) * 64 + low6 b1) * 64 + low6 b2) * 64
                       + low6 b3)%N <$> utf8_decode t3
            else None
        | _ => None
        end
      else None
  end.

Definition decode_utf8 (value : list Byte.byte) : outcome (list N) :=
  match utf8_decode (map Byte.to_N value) with
  | Some text => Returns text
  | None => Raises UnicodeDecodeError
  end.

(** ** The collaborators of [main] *)

(** The calls that leave the module. Each is answered by the world
    outside, with a value or with an exception. *)
Inductive call : Type :=
| ClogConfigure                              (* clog.config.configure(...) *)
| GetCluster                                 (* load_system_paasta_config().get_cluster() *)
| GetDockerClient                            (* get_docker_client() *)
| ContainerdGet (container_id : str)         (* get_containerd_container(container_id) *)
| InspectContainer (resource_id : str)       (* client.inspect_container(resource_id=...) *)
| Print (to_stderr : bool) (text : str) (e : option exn)
| ClogLogLine (stream line : str)            (* clog.log_line(stream, line) *)
| PaastaLog (service instance component cluster level line : str)  (* _log(...) *)
| GetPool (service instance cluster : str)   (* get_instance_config(...).get_pool() *)
| EmitEvent (name : str) (dimensions : gmap str str)
| CounterCount (name : str) (default_dimensions : gmap str str).

(** What a call returns: of a containerd container, the bytes of
    [spec.value], the one part [main] reads. *)
Definition reply (c : call) : Type :=
  match c with
  | GetCluster => str
  | ContainerdGet _ => list Byte.byte
  | InspectContainer _ => pyval
  | GetPool _ _ _ => str
  | _ => unit
  end.

(** The [dimensions] of [send_sfx_event]. *)
Definition sfx_dimensions (service instance cluster pool : str) : gmap str str :=
  <[lit "paasta_pool" := pool]>
  (<[lit "paasta_service" := service]>
  (<[lit "paasta_instance" := instance]>
  (<[lit "paasta_cluster" := cluster]> ∅))).

Section Main.
(** The world outside the process and how it answers. *)
Context {W : Type}.
Variable respond : forall c : call, W -> outcome (reply c) * W.

(** [json.loads], on decoded text. *)
Variable json_loads : list N -> outcome pyval.

(** [paasta_tools.utils.DEFAULT_LOGLEVEL], and whether the two optional
    imports at the top of the module succeeded. *)
Variable DEFAULT_LOGLEVEL : str.
Variable clog_imported : bool.
Variable yelp_meteorite_imported : bool.

(** The state threaded through [main]: the world, and the calls made so
    far, oldest first. *)
Record run_state : Type := RunState {
  world : W;
  calls : list call
}.

Definition M (A : Type) : Type := run_state -> outcome A * run_state.

Global Instance M_ret : MRet M := fun A a s => (Returns a, s).
Global Instance M_bind : MBind M := fun A B f c s =>
  match c s with
  | (Returns a, s') => f a s'
  | (Raises e, s') => (Raises e, s')
  end.

Definition raise {A : Type} (e : exn) : M A := fun s => (Raises e, s).

Definition lift {A : Type} (o : outcome A) : M A := fun s => (o, s).

Definition perform (c : call) : M (reply c) := fun s =>
  let '(r, w) := respond c (world s) in
  (r, RunState w (calls s ++ [c])).

(** [print(...)]: recorded among the calls; it returns. *)
Definition print (to_stderr : bool) (text : str) (e : option exn) : M unit :=
  fun s => (Returns tt, RunState (world s) (calls s ++ [Print to_stderr text e])).

(** [try: body / except: handler]: [handler e] is [None] for an
    exception no clause catches. *)
Definition try_except {A : Type} (body : M A) (handler : exn -> option (M A))
    : M A := fun s =>
  match body s with
  | (Raises e, s') =>
      match handler e with
      | Some h => h s'
      | None => (Raises e, s')
      end
  | r => r
  end.

Definition log_to_clog (log_line : LogLine) : M unit :=
  perform (ClogLogLine (lit "tmp_paasta_oom_events") (clog_line log_line)).

Definition log_to_paasta (log_line : LogLine) : M unit :=
  perform (PaastaLog (service log_line) (instance log_line) (lit "oom")
             (cluster log_line) DEFAULT_LOGLEVEL (paasta_line log_line)).

Definition send_sfx_event (service instance cluster : str) : M unit :=
  if yelp_meteorite_imported then
    pool ← perform (GetPool service instance cluster);
    let dimensions := sfx_dimensions service instance cluster pool in
    _ ← perform (EmitEvent (lit "paasta.service.oom_events") dimensions);
    perform (CounterCount (lit "paasta.service.oom_count") dimensions)
  else mret tt.

(** Lines 271-285: the inspected container, or [None] where the loop
    says [continue]. *)
Definition inspect (containerd : bool) (container_id : str) : M (option pyval) :=
  if containerd then
    container_info ←
      try_except
        (container ← perform (ContainerdGet container_id);
         mret (Some container))
        (fun e => match e with
                  | RpcError =>
                      Some (_ ← print false
                              (lit "An error occurred while getting the container:")
                              (Some e);
                            mret None)
                  | _ => None
                  end);
    match container_info with
    | None => mret None
    | Some spec_value =>
        container_spec_raw ← lift (decode_utf8 spec_value);
        container_inspect ← lift (json_loads container_spec_raw);
        mret (Some container_inspect)
    end
  else
    try_except
      (container_inspect ← perform (InspectContainer container_id);
       mret (Some container_inspect))
      (fun e => match e with
                | APIError => Some (mret None)
                | _ => None
                end).

(** Lines 302-304: the three sinks, one after the other. *)
Definition dispatch (log_line : LogLine) : M unit :=
  _ ← log_to_clog log_line;
  _ ← log_to_paasta log_line;
  send_sfx_event (service log_line) (instance log_line) (cluster log_line).

(** The body of the [for] loop of [main]. *)
Definition iteration (containerd : bool) (cluster : str) (occ : occurrence)
    : M unit :=
  let '(_, _, container_id, _) := occ in
  container_inspect ← inspect containerd container_id;
  match container_inspect with
  | None => mret tt
  | Some container_inspect =>
      env_vars ← lift (get_container_env_as_dict containerd container_inspect);
      dispatch (make_log_line cluster occ env_vars)
  end.

Fixpoint main_loop (containerd : bool) (cluster : str)
    (occs : list occurrence) : M unit :=
  match occs with
  | [] => mret tt
  | occ :: occs' =>
      _ ← iteration containerd cluster occ;
      main_loop containerd cluster occs'
  end.

(** [main], with [args.containerd] and the lines of standard input. *)
Definition main (containerd : bool) (stdin : list str) : M unit :=
  if clog_imported then
    _ ← perform ClogConfigure;
    cluster ← perform GetCluster;
    _ ← perform GetDockerClient;
    main_loop containerd cluster (capture_oom_events_from_stdin stdin)
  else
    _ ← print true (lit "CLog logger unavailable, exiting.") None;
    raise (SystemExit 1).
End Main.

(** * paasta_tools.paasta_cli.cmds.push_to_registry

    The other module of the repository, in Python 2: it builds the
    command line of [docker push] and runs it. Text is [str], a string
    of bytes. *)

Module PushToRegistry.

(** ** Exceptions and outcomes *)

Inductive exn : Type :=
| ValueError                                   (* shlex: no closing quotation, no escaped character *)
| IndexError
| CalledProcessError (returncode : Z) (output : str)
| SystemExit (status : Z)
| OtherError (name : str).                     (* anything else a collaborator raises *)

Inductive outcome (A : Type) : Type :=
| Returns (a : A)
| Raises (e : exn).
Arguments Returns {A} a.
Arguments Raises {A} e.

(** ** [shlex.split]

    [shlex.split(s)] is [list(lex)] for [lex = shlex(s, posix=True)] with
    [whitespace_split = True] and no commenters. The lexer reads one
    character at a time; [state] is a blank, the letter a, a quote or an escape
    character; [quoted] and [escapedstate] are local to one token. *)

Definition whitespace (a : ascii) : bool :=
  match code a with
  | 32 | 9 | 13 | 10 => true
  | _ => false
  end.

(** The two quote characters, and the backslash. *)
Definition quotes (a : ascii) : bool :=
  Ascii.eqb a "'" || Ascii.eqb a (ascii_of_nat 34).
Definition escape (a : ascii) : bool := Ascii.eqb a "\".
Definition escapedquotes (a : ascii) : bool := Ascii.eqb a (ascii_of_nat 34).

(** The letters, the digits and [_], and in POSIX mode the accented
    letters of Latin-1. *)
Definition wordchars (a : ascii) : bool :=
  is_ascii_alpha a || is_digit a || Ascii.eqb a "_"
  || between 223 246 (code a) || between 248 255 (code a)
  || between 192 214 (code a) || between 216 222 (code a).

Inductive lex_state : Type :=
| InBlank                  (* a blank: between tokens *)
| InWord                   (* the letter a: in a token *)
| InQuote (q : ascii)
| InEscape (e : ascii).

(** What the end of a token gives: an empty token counts only when it
    was quoted. *)
Definition emit (token : str) (quoted : bool) : list str :=
  match token with
  | [] => if quoted then [token] else []
  | _ :: _ => [token]
  end.

Definition has_token (token : str) (quoted : bool) : bool :=
  match token with
  | [] => quoted
  | _ :: _ => true
  end.

(** [read_token], call after call, over what is left of the input. *)
Fixpoint lex (s : str) (state escapedstate : lex_state) (token : str)
    (quoted : bool) : outcome (list str) :=
  let next_token s' :=
    match lex s' InBlank InBlank [] false with
    | Returns tokens => Returns (token :: tokens)
    | Raises e => Raises e
    end in
  match s with
  | [] =>
      match state with
      | InBlank | InWord => Returns (emit token quoted)
      | InQuote _ => Raises ValueError       (* No closing quotation *)
      | InEscape _ => Raises ValueError      (* No escaped character *)
      end
  | nextchar :: s' =>
      match state with
      | InBlank =>
          if whitespace nextchar then
            if has_token token quoted then next_token s'
            else lex s' InBlank escapedstate token quoted
          else if escape nextchar then
            lex s' (InEscape nextchar) InWord token quoted
          else if wordchars nextchar then
            lex s' InWord escapedstate [nextchar] quoted
          else if quotes nextchar then
            lex s' (InQuote nextchar) escapedstate token quoted
          else (* whitespace_split *)
            lex s' InWord escapedstate [nextchar] quoted
      | InQuote q =>
          if Ascii.eqb nextchar q then
            lex s' InWord escapedstate token true
          else if escape nextchar && escapedquotes q then
            lex s' (InEscape nextchar) (InQuote q) token true
          else lex s' (InQuote q) escapedstate (token ++ [nextchar]) true
      | InEscape e =>
          let token :=
            match escapedstate with
            | InQuote q =>
                if negb (Ascii.eqb nextchar e) && negb (Ascii.eqb nextchar q)
                then token ++ [e] else token
            | _ => token
            end in
          lex s' escapedstate escapedstate (token ++ [nextchar]) quoted
      | InWord =>
          if whitespace nextchar then
            if has_token token quoted then next_token s'
            else lex s' InBlank escapedstate token quoted
          else if quotes nextchar then
            lex s' (InQuote nextchar) escapedstate token quoted
          else if escape nextchar then
            lex s' (InEscape nextchar) InWord token quoted
          else (* wordchars, or whitespace_split *)
            lex s' InWord escapedstate (token ++ [nextchar]) quoted
      end
  end.

Definition shlex_split (s : str) : outcome (list str) :=
  lex s InBlank InBlank [] false.

(** ** [build_command] *)

Definition build_command (upstream_job_name upstream_git_commit : str)
    : outcome (list str) :=
  let cmd := lit "docker push docker-paasta.yelpcorp.com:443/"
             ++ upstream_job_name ++ lit ":paasta-" ++ upstream_git_commit in
  shlex_split cmd.

(** ** Text

    [repr] of a [str] and of a list of them, as [%s] prints a list. *)

Definition hex_digit (n : nat) : ascii :=
  if n <? 10 then ascii_of_nat (48 + n) else ascii_of_nat (87 + n).

Definition repr_char (quote c : ascii) : str :=
  if Ascii.eqb c quote || Ascii.eqb c "\" then ["\"%char; c]
  else if code c =? 9 then lit "\t"
  else if code c =? 10 then lit "\n"
  else if code c =? 13 then lit "\r"
  else if (code c <? 32) || (127 <=? code c) then
    lit "\x" ++ [hex_digit (code c / 16); hex_digit (code c mod 16)]
  else [c].

Definition repr_str (s : str) : str :=
  let quote :=
    if existsb (Ascii.eqb "'") s && negb (existsb (Ascii.eqb (ascii_of_nat 34)) s)
    then ascii_of_nat 34 else "'"%char in
  quote :: flat_map (repr_char quote) s ++ [quote].

Fixpoint join (sep : str) (l : list str) : str :=
  match l with
  | [] => []
  | [x] => x
  | x :: l' => x ++ sep ++ join sep l'
  end.

Definition repr_list (l : list str) : str :=
  lit "[" ++ join (lit ", ") (map repr_str l) ++ lit "]".

(** [s.startswith(prefix)]. *)
Fixpoint startswith (s prefix : str) : bool :=
  match prefix, s with
  | [], _ => true
  | a :: prefix', b :: s' => Ascii.eqb a b && startswith s' prefix'
  | _ :: _, [] => false
  end.

(** [s.split(sep, 1)] for a separator that is not empty: [s] cut at the
    first place where [sep] stands, or [s] alone; [before] is what has
    been passed. *)
Fixpoint split_once (sep before s : str) : list str :=
  if startswith s sep then [before; drop (length sep) s]
  else match s with
       | [] => [before]
       | a :: s' => split_once sep (before ++ [a]) s'
       end.

(** [l[i]]. *)
Definition index (l : list str) (i : nat) : outcome str :=
  match l !! i with
  | Some x => Returns x
  | None => Raises IndexError
  end.

(** ** The collaborators *)

Inductive call : Type :=
| ValidateServiceName (service_name : str)   (* validate_service_name(service_name) *)
| Print (text : str)                         (* the print statement *)
| CheckOutput (cmd : list str).              (* subprocess.check_output(cmd, stderr=STDOUT) *)

Definition reply (c : call) : Type :=
  match c with
  | CheckOutput _ => str
  | _ => unit
  end.

Section Run.
Context {W : Type}.
Variable respond : forall c : call, W -> outcome (reply c) * W.

(** The world, and the calls made so far, oldest first. *)
Record run_state : Type := RunState {
  world : W;
  calls : list call
}.

Definition M (A : Type) : Type := run_state -> outcome A * run_state.

Definition ret {A : Type} (a : A) : M A := fun s => (Returns a, s).

Definition bind {A B : Type} (c : M A) (f : A -> M B) : M B := fun s =>
  match c s with
  | (Returns a, s') => f a s'
  | (Raises e, s') => (Raises e, s')
  end.

Definition raise {A : Type} (e : exn) : M A := fun s => (Raises e, s).

Definition lift {A : Type} (o : outcome A) : M A := fun s => (o, s).

Definition perform (c : call) : M (reply c) := fun s =>
  let '(r, w) := respond c (world s) in
  (r, RunState w (calls s ++ [c])).

(** The print statement: recorded among the calls; it returns. *)
Definition print (text : str) : M unit :=
  fun s => (Returns tt, RunState (world s) (calls s ++ [Print text])).

(** [try: body / except: handler]: [handler e] is [None] for an
    exception the clause does not catch. *)
Definition try_except {A : Type} (body : M A) (handler : exn -> option (M A))
    : M A := fun s =>
  match body s with
  | (Raises e, s') =>
      match handler e with
      | Some h => h s'
      | None => (Raises e, s')
      end
  | r => r
  end.

(** ** [paasta_push_to_registry], with [args.service] and [args.commit] *)

Definition paasta_push_to_registry (service commit : str) : M unit :=
  bind (lift (match service with
              | [] => Returns service
              | _ :: _ =>
                  if startswith service (lit "services-")
                  then index (split_once (lit "services-") [] service) 1
                  else Returns service
              end)) (fun service_name =>
  bind (perform (ValidateServiceName service_name)) (fun _ =>
  bind (lift (build_command service_name commit)) (fun cmd =>
  bind (print (lit "INFO: Executing command " ++ dq ++ repr_list cmd ++ dq))
    (fun _ =>
  try_except
    (bind (perform (CheckOutput cmd)) (fun _ => ret tt))
    (fun exc =>
       match exc with
       | CalledProcessError returncode output =>
           Some (bind (print (lit "ERROR: Failed to promote image. Output:"
                              ++ [newline] ++ output
                              ++ lit "Return code was: "
                              ++ format_d returncode))
                   (fun _ => raise (SystemExit returncode)))
       | _ => None
       end))))).
End Run.
End PushToRegistry.

(** * Notions for the statements

    What follows is not in the source: the relation the matcher is
    compared with, the kinds of line and the fields the statements speak
    of, and the inputs of the examples. *)

(** ** What a pattern denotes *)

(** [den r st st']: from state [st] the expression [r] can match and
    leave the state [st']. The relation lists every way to match, without
    the order in which the matcher tries them. *)
Fixpoint den (r : regex) (st st' : mstate) : Prop :=
  match r with
  | Eps => st' = st
  | Bol => pos st = 0 ∧ st' = st
  | Eol => (rest st = [] ∨ rest st = [newline]) ∧ st' = st
  | Cls c =>
      ∃ a s', in_cls c a = true ∧ rest st = a :: s' ∧ st' = advance [a] s' st
  | Star c =>
      ∃ w s', Forall (fun a => in_cls c a = true) w ∧ rest st = w ++ s'
              ∧ st' = advance w s' st
  | Plus c =>
      ∃ w s', w ≠ [] ∧ Forall (fun a => in_cls c a = true) w
              ∧ rest st = w ++ s' ∧ st' = advance w s' st
  | Rep n c =>
      ∃ w s', length w = n ∧ Forall (fun a => in_cls c a = true) w
              ∧ rest st = w ++ s' ∧ st' = advance w s' st
  | Opt r' => den r' st st' ∨ st' = st
  | Grp i r' =>
      ∃ st1, den r' st st1
             ∧ st' = set_group i (take (pos st1 - pos st) (rest st)) st1
  | Cat r1 r2 => ∃ st1, den r1 st st1 ∧ den r2 st1 st'
  end.

(** The groups an expression can set. *)
Fixpoint binds (r : regex) : list nat :=
  match r with
  | Grp i r' => i :: binds r'
  | Opt r' => binds r'
  | Cat r1 r2 => binds r1 ++ binds r2
  | _ => []
  end.

(** ** Fields *)

(** [str.split()]: the maximal runs of characters that are not
    whitespace; [cur] is the run being read. *)
Fixpoint split_ws (cur : str) (s : str) : list str :=
  match s with
  | [] => match cur with [] => [] | _ :: _ => [cur] end
  | a :: s' =>
      if is_space a then
        match cur with
        | [] => split_ws [] s'
        | _ :: _ => cur :: split_ws [] s'
        end
      else split_ws (cur ++ [a]) s'
  end.

Definition fields (line : str) : list str := split_ws [] line.

(** ** The head of a kill pattern *)

(** What the five kill patterns share after [^]: [(\d+)\s([a-zA-Z0-9\-]+)\s]. *)
Definition kill_header : list regex :=
  [Grp 1 (cat [Plus CDigit]); Cls CSpace; Grp 2 (cat [Plus host_set]); Cls CSpace].

(** The state of the matcher after that head. *)
Definition after_header (ts host msg : str) : mstate :=
  MState (length ts + 1 + length host + 1) msg [(2, host); (1, ts)].

(** A line starts well when it is a timestamp, a hostname and a message,
    a whitespace character after each of the first two. *)
Definition well_started (line ts host msg : str) : Prop :=
  ∃ sp1 sp2, line = ts ++ sp1 :: host ++ sp2 :: msg
    ∧ ts ≠ [] ∧ Forall (fun a => is_digit a = true) ts ∧ is_space sp1 = true
    ∧ host ≠ [] ∧ Forall (fun a => in_cls host_set a = true) host
    ∧ is_space sp2 = true.

(** Each kill pattern is [^], the head, and a body that sets group 3. *)
Definition is_kill_pattern (r : regex) : Prop :=
  ∃ body, r = cat (Bol :: kill_header ++ body) ∧ binds (cat body) = [3].

(** ** Occurrences and kinds of line *)


(** The parts of an occurrence. *)
Definition occ_hostname (occ : occurrence) : str := occ.1.1.2.
Definition occ_container_id (occ : occurrence) : str := occ.1.2.

(** The kinds of line the scanner tells apart. A line can be of both. *)
Definition names_process (name line : str) : Prop :=
  ∃ r, search process_name_regex line = Some r ∧ group_str 1 r = name.
Definition no_process_name (line : str) : Prop :=
  search process_name_regex line = None.
Definition no_kill (line : str) : Prop :=
  first_match event_detail_regexes line = None.

(** A line that is neither, and is not the end of input. *)
Definition quiet (line : str) : Prop :=
  line ≠ [] ∧ no_process_name line ∧ no_kill line.

(** The slot after the scanner has read the lines. *)
Fixpoint slot_after (process_name : str) (stdin : list str) : str :=
  match stdin with
  | [] => process_name
  | line :: stdin' =>
      slot_after
        (match first_match event_detail_regexes line with
         | Some _ => []
         | None => note_process_name process_name line
         end) stdin'
  end.

(** ** The calls of the sinks *)

(** The calls of the first two sinks for a record. *)
Definition clog_call (log_line : LogLine) : call :=
  ClogLogLine (lit "tmp_paasta_oom_events") (clog_line log_line).
Definition paasta_call (DEFAULT_LOGLEVEL : str) (log_line : LogLine) : call :=
  PaastaLog (service log_line) (instance log_line) (lit "oom")
    (cluster log_line) DEFAULT_LOGLEVEL (paasta_line log_line).

(** The calls of the metrics sink for a record, the pool being known. *)
Definition metrics_calls (log_line : LogLine) (pool : str) : list call :=
  let dimensions :=
    sfx_dimensions (service log_line) (instance log_line) (cluster log_line) pool in
  [GetPool (service log_line) (instance log_line) (cluster log_line);
   EmitEvent (lit "paasta.service.oom_events") dimensions;
   CounterCount (lit "paasta.service.oom_count") dimensions].

(** ** The systemd layout with docker *)

(** [[^,]]. *)
Definition not_comma : cls := CNotSet [IChar ","].

(** The marker of the layout. *)
Definition systemd_marker : str := lit "task_memcg=/kubepods.slice/".

(** What follows the head in [oom_regex_kubernetes_systemd_cgroup]. *)
Definition systemd_body : list regex :=
  Star CDot :: (chars "oom-kill:" ++ Star CDot ::
  (chars "task_memcg=/kubepods.slice/" ++ Plus not_comma ::
  (chars "docker-" ++ Grp 3 (cat [Rep 12 CWord]) :: Plus CWord ::
  (chars ".scope," ++ [Star CDot; Eol])))).

(** The message of a line the pattern matches, and what group 3 holds. *)
Definition systemd_message (x1 x2 x3 g3 w x4 : str) : str :=
  x1 ++ lit "oom-kill:" ++ x2 ++ systemd_marker ++ x3 ++ lit "docker-"
  ++ g3 ++ w ++ lit ".scope," ++ x4.

(** Text that [.*] can read: it has no newline. *)
Definition one_line (x : str) : Prop := Forall (fun a => in_cls CDot a = true) x.

(** The end of a line: nothing, or its newline. *)
Definition line_end (x : str) : Prop := x = [] ∨ x = [newline].

(** A line of the layout, as syslog-ng writes it:
    the timestamp, the hostname and the message, a space after each of
    the first two. *)
Definition systemd_docker_line (ts host pre mid slice id more tail : str) : str :=
  ts ++ " "%char :: host ++ " "%char :: systemd_message pre mid slice id more tail.

(** ** Where a marker occurs *)

(** Whether [s] starts with [p]. *)
Fixpoint is_prefix (p s : str) : bool :=
  match p, s with
  | [], _ => true
  | a :: p', b :: s' => Ascii.eqb a b && is_prefix p' s'
  | _ :: _, [] => false
  end.

(** The offsets of [s], counted from [n], at which [marker] starts. *)
Fixpoint offsets_from (n : nat) (marker s : str) : list nat :=
  (if is_prefix marker s then [n] else [])
  ++ match s with
     | [] => []
     | _ :: s' => offsets_from (S n) marker s'
     end.

Definition offsets (marker s : str) : list nat := offsets_from 0 marker s.

(** ** The lines of the examples *)

(** A kill line of the classic layout but for its host, which is
    written with its domain. *)
Definition line_of_qualified_host : str :=
  lit "123 host.example.com Task in /docker/0123456789abcdef killed as a result".


(** Two kill lines of the classic layout, for two containers. *)
Definition first_kill_line : str :=
  lit "1700000000 nodeA kernel: Task in /docker/abcdef012345abcdef killed as a result of limit of /docker/abcdef012345abcdef".
Definition second_kill_line : str :=
  lit "1700000001 nodeA kernel: Task in /docker/0123456789abcdef01 killed as a result of limit of /docker/0123456789abcdef01".

(** The two occurrences of the two kill lines. *)
Definition first_occurrence : occurrence :=
  (1700000000%Z, lit "nodeA", lit "abcdef012345", lit "").
Definition second_occurrence : occurrence :=
  (1700000001%Z, lit "nodeA", lit "0123456789ab", lit "").

(** A process-name line of one host and a kill line of another. *)
Definition name_line_host_a : str :=
  lit "1 hostA kernel: [1.0] java invoked oom-killer: gfp_mask=0x0".
Definition kill_line_host_b : str :=
  lit "2 hostB kernel: Task in /docker/0123456789abcdef killed as a result of limit of /docker/0123456789abcdef".


Module Fixture.
Definition ts : str := lit "1720128512".
Definition host : str := lit "dev208-uswest1adevc".
Definition pre : str := lit "kernel: [ 1579.104425] ".
Definition id : str := lit "0e2fc4b0dd1d".
Definition more : str := lit "ea8dd0a0cfbf2e295c2d1d96c22ff1f5ae4fc9ba4a2d8a1b3a24".
Definition slice : str :=
  lit "kubepods-burstable.slice/kubepods-burstable-pod0e4e5934_3a62_47cb_8f1a_d6bc1d0a8c63.slice/".
(** Between [oom-kill:] and the marker, for an id that goes on with
    [more]. *)
Definition mid (more : str) : str :=
  lit "constraint=CONSTRAINT_MEMCG,nodemask=(null),cpuset=docker-"
  ++ id ++ more
  ++ lit ".scope,mems_allowed=0,oom_memcg=/kubepods.slice/kubepods-burstable.slice/kubepods-burstable-pod0e4e5934_3a62_47cb_8f1a_d6bc1d0a8c63.slice,".
Definition tail : str := lit "task=apache2,pid=1234,uid=33".

(** The line with the id as docker gives it, 64 characters. *)
Definition line : str :=
  systemd_docker_line ts host pre (mid more) slice id more (tail ++ [newline]).

(** The line with an id of twelve characters and no more. *)
Definition short_line : str :=
  systemd_docker_line ts host pre (mid []) slice id [] (tail ++ [newline]).
End Fixture.

(** ** The worlds of the examples *)

(** An inspected container of the classic engine with two variables. *)
Definition inspected_web : pyval :=
  PDict [(lit "Config",
          PDict [(lit "Env", PList [PStr (lit "PAASTA_SERVICE=web");
                                    PStr (lit "PAASTA_INSTANCE=main")])])].

(** A world in which every collaborator answers, the classic engine with
    [inspected_web] and containerd with a payload that is not UTF-8. *)
Definition plain_world (c : call) (w : unit) : outcome (reply c) * unit :=
  (match c return outcome (reply c) with
   | GetCluster => Returns (lit "norcal-devc")
   | ContainerdGet _ => Returns [Byte.xff]
   | InspectContainer _ => Returns inspected_web
   | GetPool _ _ _ => Returns (lit "default")
   | _ => Returns tt
   end, w).

(** The same world, but the structured-event sink fails. *)
Definition clog_down_world (c : call) (w : unit) : outcome (reply c) * unit :=
  match c as c0 return outcome (reply c0) * unit with
  | ClogLogLine _ _ => (Raises (OtherError (lit "ConnectionError")), w)
  | c0 => plain_world c0 w
  end.

(** A world whose backends refuse the first container and know the
    second. *)
Definition first_lookup_fails_world (c : call) (w : unit)
    : outcome (reply c) * unit :=
  match c as c0 return outcome (reply c0) * unit with
  | ContainerdGet container_id =>
      (if decide (container_id = lit "abcdef012345")
       then Raises RpcError else Returns [Byte.x7b; Byte.x7d], w)
  | InspectContainer resource_id =>
      (if decide (resource_id = lit "abcdef012345")
       then Raises APIError else Returns inspected_web, w)
  | c0 => plain_world c0 w
  end.

(** A [json.loads] for the examples: it knows the text of the empty
    object and of nothing else. *)
Definition json_loads_stub (text : list N) : outcome pyval :=
  if decide (text = [123%N; 125%N]) then Returns (PDict [])
  else Raises JSONDecodeError.

(** A value for [DEFAULT_LOGLEVEL]. *)
Definition level_event : str := lit "event".

(** The record of the first occurrence in [plain_world]. *)
Definition first_log_line : LogLine :=
  mkLogLine 1700000000%Z (lit "nodeA") (lit "abcdef012345") (lit "norcal-devc")
    (lit "web") (lit "main") (lit "") (lit "mesos-null") (lit "unknown").

(** ** Tactics *)

(** A fact about every character, by cases on the 256 of them. *)
Ltac by_cases_on_ascii a :=
  destruct a as [[] [] [] [] [] [] [] []]; vm_compute; try done.


(** ** What a pattern reads *)

(** [reads r w]: the expression [r] can match exactly the text [w]; the
    anchors read nothing. *)
Fixpoint reads (r : regex) (w : str) : Prop :=
  match r with
  | Eps | Bol | Eol => w = []
  | Cls c => ∃ a, w = [a] ∧ in_cls c a = true
  | Star c => Forall (fun a => in_cls c a = true) w
  | Plus c => w ≠ [] ∧ Forall (fun a => in_cls c a = true) w
  | Rep n c => length w = n ∧ Forall (fun a => in_cls c a = true) w
  | Opt r' => reads r' w ∨ w = []
  | Grp _ r' => reads r' w
  | Cat r1 r2 => ∃ w1 w2, w = w1 ++ w2 ∧ reads r1 w1 ∧ reads r2 w2
  end.

(** The capturing groups of an expression, each with what it encloses. *)
Fixpoint groups_of (r : regex) : list (nat * regex) :=
  match r with
  | Grp i r' => (i, r') :: groups_of r'
  | Opt r' => groups_of r'
  | Cat r1 r2 => groups_of r1 ++ groups_of r2
  | _ => []
  end.

(** ** The scanner, line by line *)

(** The lines the scanner reads: those before the first empty string. *)
Fixpoint before_eof (stdin : list str) : list str :=
  match stdin with
  | [] => []
  | [] :: _ => []
  | line :: stdin' => line :: before_eof stdin'
  end.

(** What a line contributes to an occurrence by itself. *)
Definition kill_triple (line : str) : option (Z * str * str) :=
  (fun r => (int_of_str (group_str 1 r), group_str 2 r, group_str 3 r))
    <$> first_match event_detail_regexes line.


(** The groups every match of an expression sets. *)
Fixpoint always_binds (r : regex) : list nat :=
  match r with
  | Grp i r' => i :: always_binds r'
  | Cat r1 r2 => always_binds r1 ++ always_binds r2
  | _ => []
  end.

(** ** The shape of a container id *)

(** Twelve or sixty-four word characters. *)
Definition id_shape (w : str) : Prop :=
  (length w = 12 ∨ length w = 64) ∧ Forall (fun a => is_word a = true) w.

(** A line that no pattern of the scanner matches. *)
Definition other_line : str := lit "1700000002 nodeA kernel: eth0: link up".

(** ** The classic layout *)





Module Classic.
(** The parts of [first_kill_line]. *)
Definition ts : str := lit "1700000000".
Definition host : str := lit "nodeA".
Definition pre : str := lit "kernel: ".
Definition id : str := lit "abcdef012345".
Definition more : str := lit "abcdef".
Definition tail : str := lit " result of limit of /docker/abcdef012345abcdef".
End Classic.

(** ** The kubernetes layouts with cgroupfs *)

(** [(\w{12}(?:\w{52})?)], the id of both layouts. *)
Definition id_group : regex :=
  Grp 3 (cat [Rep 12 CWord; Opt (cat [Rep 52 CWord])]).

(** [(?:[a-zA-Z]+/)?pod[-\w]+/], the cgroup of the pod. *)
Definition kube_path : list regex :=
  Opt (cat [Plus alpha_set; Cls (CChar "/")])
  :: (chars "pod" ++ [Plus pod_set; Cls (CChar "/")]).





Definition kubepods_tail : list regex :=
  Star CWord :: Cls CSpace :: (chars "killed" ++ Cls CSpace
  :: (chars "as" ++ [Cls CSpace; Star (CChar "a")])).

(** The word that opens the message of the layout. *)
Definition task_marker : str := lit "Task".


Module Kubepods.
(** The parts of a line of the layout; the id has sixty-four characters. *)
Definition ts : str := lit "1500316300".
Definition host : str := lit "dev37-devc".
Definition pre : str := lit "[30533389.114905] ".
Definition qos : str := lit "burstable/".
Definition pod : str := lit "b23384e4-cc4e-11e8-bbbd-0a43b0339232".
Definition id : str :=
  lit "a404e1a7d9d922748cd2601a4e4c6ad5e0d7ac261931ade29c347fd1d8d7c5c5".
Definition tail : str :=
  lit "a result of limit of /kubepods/burstable/podb23384e4-cc4e-11e8-bbbd-0a43b0339232/a404e1a7d9d922748cd2601a4e4c6ad5e0d7ac261931ade29c347fd1d8d7c5c5".
End Kubepods.

(** ** The structured kernel message of kubernetes *)

Definition structured_tail : list regex :=
  [Star CWord; Cls (CChar ","); Star CDot; Eol].



Module Structured.
(** The parts of a line of the layout; the id has sixty-four characters. *)
Definition ts : str := lit "1720128512".
Definition host : str := lit "dev208-uswest1adevc".
Definition pre : str := lit "kernel: [ 1579.104425] ".
Definition mid : str :=
  lit "constraint=CONSTRAINT_MEMCG,nodemask=(null),cpuset=0e2fc4b0dd1dea8dd0a0cfbf2e295c2d1d96c22ff1f5ae4fc9ba4a2d8a1b3a24,mems_allowed=0,oom_memcg=/kubepods/burstable/pod0e4e5934-3a62-47cb-8f1a-d6bc1d0a8c63,".
Definition qos : str := lit "burstable/".
Definition pod : str := lit "0e4e5934-3a62-47cb-8f1a-d6bc1d0a8c63".
Definition id : str :=
  lit "0e2fc4b0dd1dea8dd0a0cfbf2e295c2d1d96c22ff1f5ae4fc9ba4a2d8a1b3a24".
Definition tail : str := lit "task=apache2,pid=1234,uid=33".
End Structured.

(** ** The systemd layout with containerd *)

(** The markers of the layout, and what the two kubepods layouts with
    [task_memcg] share. *)
Definition containerd_marker : str := lit "task_memcg=/system.slice/".
Definition kubepods_memcg : str := lit "task_memcg=/kubepods".



Module Containerd.
(** The parts of a line of the layout. *)
Definition ts : str := lit "1720128512".
Definition host : str := lit "dev208-uswest1adevc".
Definition pre : str := lit "kernel: [ 1579.104425] ".
Definition mid : str :=
  lit "constraint=CONSTRAINT_MEMCG,nodemask=(null),cpuset=nerdctl-0e2fc4b0dd1dea8dd0a0cfbf2e295c2d1d96c22ff1f5ae4fc9ba4a2d8a1b3a24.scope,mems_allowed=0,oom_memcg=/system.slice/nerdctl-0e2fc4b0dd1dea8dd0a0cfbf2e295c2d1d96c22ff1f5ae4fc9ba4a2d8a1b3a24.scope,".
Definition id : str :=
  lit "0e2fc4b0dd1dea8dd0a0cfbf2e295c2d1d96c22ff1f5ae4fc9ba4a2d8a1b3a24".
Definition tail : str := lit "task=python3,pid=1234,uid=33".
End Containerd.

(** ** The config section of an inspected container *)

(** The keys the function reads, by engine. *)
Definition config_key (is_cri_containerd : bool) : str :=
  if is_cri_containerd then lit "process" else lit "Config".
Definition env_key (is_cri_containerd : bool) : str :=
  if is_cri_containerd then lit "env" else lit "Env".

(** The inspected container is a dict whose config section is the dict
    of the items [cfg]. *)
Definition has_config (is_cri_containerd : bool) (container_inspect : pyval)
    (cfg : list (str * pyval)) : Prop :=
  ∃ items, container_inspect = PDict items
    ∧ dict_find (config_key is_cri_containerd) items = Some (PDict cfg).

(** The entry [e] of an environment assigns the variable [name]: it is
    [name=value] for some value, or [name] alone. *)
Definition assigns (name e : str) : Prop :=
  e = name ∨ ∃ value, e = name ++ "="%char :: value.

(** Inspected containers for the examples. *)
Definition inspected_twice : pyval :=
  PDict [(lit "process",
          PDict [(lit "env", PList [PStr (lit "A=1"); PStr (lit "B=x=y");
                                    PStr (lit "A=2")])])].
Definition inspected_without_env : pyval := PDict [(lit "Config", PDict [])].
Definition inspected_null_env : pyval :=
  PDict [(lit "Config", PDict [(lit "Env", PNone)])].
Definition inspected_number : pyval :=
  PDict [(lit "Config", PDict [(lit "Env", PList [PStr (lit "A=1"); PInt 3])])].

(** ** The calls of a run *)

(** The lookup of a container, with the engine in use. *)
Definition lookup_call (containerd : bool) (container_id : str) : call :=
  if containerd then ContainerdGet container_id
  else InspectContainer container_id.

(** The id a call looks up, when it is a lookup. *)
Definition lookup_id (c : call) : option str :=
  match c with
  | ContainerdGet container_id => Some container_id
  | InspectContainer resource_id => Some resource_id
  | _ => None
  end.

(** The message printed when containerd does not know a container. *)
Definition lookup_failed : call :=
  Print false (lit "An error occurred while getting the container:")
    (Some RpcError).

(** The message printed when [clog] is missing. *)
Definition clog_missing : call :=
  Print true (lit "CLog logger unavailable, exiting.") None.

(** A call of one of the sinks for a record. *)
Definition sink_of (DEFAULT_LOGLEVEL : str) (yelp_meteorite_imported : bool)
    (log_line : LogLine) (c : call) : Prop :=
  c = clog_call log_line ∨ c = paasta_call DEFAULT_LOGLEVEL log_line
  ∨ (yelp_meteorite_imported = true ∧ ∃ pool, c ∈ metrics_calls log_line pool).

(** What a run may call, given what was imported and [args.containerd]:
    the startup calls and the two log sinks need [clog]; each engine is
    looked up only when it is the one in use; the metrics calls need
    [yelp_meteorite]; the message about a lookup is printed to standard
    output with containerd, the message on standard error without
    [clog]. *)
Definition allowed (clog_imported yelp_meteorite_imported containerd : bool)
    (c : call) : Prop :=
  match c with
  | ClogConfigure | GetCluster | GetDockerClient
  | ClogLogLine _ _ | PaastaLog _ _ _ _ _ _ => clog_imported = true
  | ContainerdGet _ => clog_imported = true ∧ containerd = true
  | InspectContainer _ => clog_imported = true ∧ containerd = false
  | GetPool _ _ _ | EmitEvent _ _ | CounterCount _ _ =>
      clog_imported = true ∧ yelp_meteorite_imported = true
  | Print to_stderr _ _ =>
      if to_stderr then clog_imported = false
      else clog_imported = true ∧ containerd = true
  end.

(** What an iteration of the loop may call after its lookup: the message
    about the lookup, with containerd, or a sink for a record of the
    occurrence. *)
Definition follows (DEFAULT_LOGLEVEL : str)
    (yelp_meteorite_imported containerd : bool) (cluster : str)
    (occ : occurrence) (c : call) : Prop :=
  (c = lookup_failed ∧ containerd = true)
  ∨ ∃ env_vars,
      sink_of DEFAULT_LOGLEVEL yelp_meteorite_imported
        (make_log_line cluster occ env_vars) c.

(** The calls of the loop over some occurrences: for each in turn its
    lookup and what follows it. *)
Inductive loop_trace (DEFAULT_LOGLEVEL : str)
    (yelp_meteorite_imported containerd : bool) (cluster : str)
    : list occurrence -> list call -> Prop :=
| loop_trace_nil :
    loop_trace DEFAULT_LOGLEVEL yelp_meteorite_imported containerd cluster [] []
| loop_trace_cons occ occs rest new :
    Forall (follows DEFAULT_LOGLEVEL yelp_meteorite_imported containerd
              cluster occ) rest ->
    loop_trace DEFAULT_LOGLEVEL yelp_meteorite_imported containerd cluster
      occs new ->
    loop_trace DEFAULT_LOGLEVEL yelp_meteorite_imported containerd cluster
      (occ :: occs)
      (lookup_call containerd (occ_container_id occ) :: rest ++ new).

(** The calls before the loop. *)
Definition startup_calls : list call :=
  [ClogConfigure; GetCluster; GetDockerClient].

(** The cluster the startup obtains in a world: what
    [load_system_paasta_config().get_cluster()] returns after [clog] has
    been configured. *)
Definition startup_cluster {W : Type}
    (respond : forall c : call, W -> outcome (reply c) * W) (w : W)
    (cluster : str) : Prop :=
  ∃ w1 w2, respond ClogConfigure w = (Returns tt, w1)
           ∧ respond GetCluster w1 = (Returns cluster, w2).

(** The calls that send something out. *)
Definition is_sink_call (c : call) : bool :=
  match c with
  | ClogLogLine _ _ | PaastaLog _ _ _ _ _ _ | GetPool _ _ _
  | EmitEvent _ _ | CounterCount _ _ => true
  | _ => false
  end.

(** ** A world without state *)







(** ** Lines without a marker *)

(** What the three patterns with [task_memcg] share. *)
Definition memcg_marker : str := lit "task_memcg=/".

(** ** The line that names a process *)

(** What the process-name pattern asks of the head of a line, and of
    the message. *)
Definition name_header : list regex :=
  [Plus CDigit; Cls CSpace; Plus host_set; Cls CSpace].
Definition name_body : list regex :=
  Cls (CChar "]") :: Cls CSpace :: Grp 1 (cat [Plus CDot]) :: Cls CSpace
  :: (chars "invoked" ++ Cls CSpace :: chars "oom-killer:").

(** The word that follows the name. *)
Definition invoked_marker : str := lit "invoked".

(** A message and a line that name a process. *)
Definition name_message (pre name tail : str) : str :=
  pre ++ lit "] " ++ name ++ " "%char :: invoked_marker
  ++ lit " oom-killer:" ++ tail.
Definition name_line (ts host pre name tail : str) : str :=
  ts ++ " "%char :: host ++ " "%char :: name_message pre name tail.

Module Named.
(** The parts of a line that names a process. *)
Definition ts : str := lit "1500216300".
Definition host : str := lit "dev37-devc".
Definition pre : str := lit "kernel: [30533389.114905] [ pid".
Definition name : str := lit "apache2 -k start".
Definition tail : str := lit " gfp_mask=0x24000c0, order=0, oom_score_adj=0".
End Named.

(** ** The command of [docker push] *)

(** A character the lexer of [shlex] takes as it is: not whitespace, not
    a quote, not the backslash. *)
Definition shell_plain (a : ascii) : bool :=
  negb (PushToRegistry.whitespace a || PushToRegistry.quotes a
        || PushToRegistry.escape a).

(** The image a service and a commit name, and the command that pushes
    it. *)
Definition image (name commit : str) : str :=
  lit "docker-paasta.yelpcorp.com:443/" ++ name ++ lit ":paasta-" ++ commit.
Definition push_command (name commit : str) : list str :=
  [lit "docker"; lit "push"; image name commit].

(** The name of the service [args.service] stands for: what follows one
    leading [services-], or all of it when there is none. *)
Definition service_name_of (service name : str) : Prop :=
  service = lit "services-" ++ name
  ∨ (PushToRegistry.startswith service (lit "services-") = false
     ∧ name = service).

(** What is printed before the command is run, and when it has failed. *)
Definition info_line (cmd : list str) : str :=
  lit "INFO: Executing command " ++ dq ++ PushToRegistry.repr_list cmd ++ dq.
Definition error_line (output : str) (returncode : Z) : str :=
  lit "ERROR: Failed to promote image. Output:" ++ [newline] ++ output
  ++ lit "Return code was: " ++ format_d returncode.

(** The calls of a run that gets as far as the command. *)
Definition push_calls (name commit : str) : list PushToRegistry.call :=
  [PushToRegistry.ValidateServiceName name;
   PushToRegistry.Print (info_line (push_command name commit));
   PushToRegistry.CheckOutput (push_command name commit)].

(** Worlds for the examples: one in which [docker push] fails with
    status 1, one in which the service is not known. *)
Definition push_fails_world (c : PushToRegistry.call) (w : unit)
    : PushToRegistry.outcome (PushToRegistry.reply c) * unit :=
  (match c return PushToRegistry.outcome (PushToRegistry.reply c) with
   | PushToRegistry.CheckOutput _ =>
       PushToRegistry.Raises
         (PushToRegistry.CalledProcessError 1 (lit "denied" ++ [newline]))
   | _ => PushToRegistry.Returns tt
   end, w).
Definition unknown_service_world (c : PushToRegistry.call) (w : unit)
    : PushToRegistry.outcome (PushToRegistry.reply c) * unit :=
  (match c return PushToRegistry.outcome (PushToRegistry.reply c) with
   | PushToRegistry.ValidateServiceName _ =>
       PushToRegistry.Raises (PushToRegistry.OtherError (lit "NoSuchService"))
   | PushToRegistry.CheckOutput _ => PushToRegistry.Returns []
   | PushToRegistry.Print _ => PushToRegistry.Returns tt
   end, w).

(** * Properties *)

(** ** The patterns *)

(** Each expression is what [re.compile] makes of the source text. *)
Lemma process_name_regex_compiled :
  re_compile false Source.process_name_regex = Some process_name_regex.
Proof. vm_compute. reflexivity. Qed.

Lemma oom_regex_docker_compiled :
  re_compile false Source.oom_regex_docker = Some oom_regex_docker.
Proof. vm_compute. reflexivity. Qed.

Lemma oom_regex_kubernetes_compiled :
  re_compile true Source.oom_regex_kubernetes = Some oom_regex_kubernetes.
Proof. vm_compute. reflexivity. Qed.

Lemma oom_regex_kubernetes_containerd_systemd_cgroup_compiled :
  re_compile true Source.oom_regex_kubernetes_containerd_systemd_cgroup
  = Some oom_regex_kubernetes_containerd_systemd_cgroup.
Proof. vm_compute. reflexivity. Qed.

Lemma oom_regex_kubernetes_structured_compiled :
  re_compile true Source.oom_regex_kubernetes_structured
  = Some oom_regex_kubernetes_structured.
Proof. vm_compute. reflexivity. Qed.

Lemma oom_regex_kubernetes_systemd_cgroup_compiled :
  re_compile true Source.oom_regex_kubernetes_systemd_cgroup
  = Some oom_regex_kubernetes_systemd_cgroup.
Proof. vm_compute. reflexivity. Qed.

(** ** The matcher and what a pattern denotes *)

Section EngineFacts.
Context {R : Type}.
Implicit Types (k : mstate -> option R) (c : cls).

Lemma star_run_sound c s : forall n (k : nat -> str -> option R) res,
  star_run c n s k = Some res ->
  ∃ w s', s = w ++ s' ∧ Forall (fun a => in_cls c a = true) w
          ∧ k (n + length w) s' = Some res.
Proof.
  induction s as [|a s IH]; intros n k res H; simpl in H.
  - exists [], []. simpl. rewrite Nat.add_0_r. auto.
  - destruct (in_cls c a) eqn:Ha.
    + destruct (star_run c (S n) s k) as [x|] eqn:Hs.
      * inversion H; subst x. apply IH in Hs as (w & s' & -> & Hw & Hk).
        exists (a :: w), s'. simpl. split; [done|]. split; [by constructor|].
        by rewrite <- Nat.add_succ_comm.
      * exists [], (a :: s). simpl. rewrite Nat.add_0_r. auto.
    + exists [], (a :: s). simpl. rewrite Nat.add_0_r. auto.
Qed.

Lemma star_run_complete c w : forall n s' (k : nat -> str -> option R),
  Forall (fun a => in_cls c a = true) w ->
  is_Some (k (n + length w) s') ->
  is_Some (star_run c n (w ++ s') k).
Proof.
  induction w as [|a w IH]; intros n s' k Hw Hk; simpl in *.
  - rewrite Nat.add_0_r in Hk.
    destruct s' as [|b s']; simpl; [done|].
    destruct (in_cls c b); [|done].
    by destruct (star_run c (S n) s' k).
  - inversion Hw as [|? ? Ha Hw']; subst. rewrite Ha.
    rewrite <- Nat.add_succ_comm in Hk.
    destruct (IH (S n) s' k Hw' Hk) as [x ->]. by eexists.
Qed.

Lemma rep_run_sound c m : forall n s (k : nat -> str -> option R) res,
  rep_run c m n s k = Some res ->
  ∃ w s', s = w ++ s' ∧ length w = m ∧ Forall (fun a => in_cls c a = true) w
          ∧ k (n + length w) s' = Some res.
Proof.
  induction m as [|m IH]; intros n s k res H; simpl in H.
  - exists [], s. simpl. rewrite Nat.add_0_r. auto.
  - destruct s as [|a s]; [done|]. destruct (in_cls c a) eqn:Ha; [|done].
    apply IH in H as (w & s' & -> & Hl & Hw & Hk).
    exists (a :: w), s'. simpl. split; [done|]. split; [by rewrite Hl|].
    split; [by constructor|]. by rewrite <- Nat.add_succ_comm.
Qed.

Lemma rep_run_complete c w : forall n s' (k : nat -> str -> option R),
  Forall (fun a => in_cls c a = true) w ->
  rep_run c (length w) n (w ++ s') k = k (n + length w) s'.
Proof.
  induction w as [|a w IH]; intros n s' k Hw; simpl.
  - by rewrite Nat.add_0_r.
  - inversion Hw as [|? ? Ha Hw']; subst. rewrite Ha.
    rewrite IH by done. by rewrite <- Nat.add_succ_comm.
Qed.

(** Whatever the matcher returns comes from one of the ways to match. *)
Lemma run_sound r : forall st k res,
  run r st k = Some res -> ∃ st', den r st st' ∧ k st' = Some res.
Proof.
  induction r as [| | |c|c|c|m c|r IH|i r IH|r1 IH1 r2 IH2];
    intros st k res H; simpl in H.
  - by exists st.
  - destruct (Nat.eqb_spec (pos st) 0); [|done]. by exists st.
  - destruct (rest st) as [|a [|b l]] eqn:Hr; [| |done].
    + exists st. simpl. rewrite Hr. auto.
    + destruct (Ascii.eqb_spec a newline); [|done]. subst a.
      exists st. simpl. rewrite Hr. auto.
  - destruct (rest st) as [|a s'] eqn:Hr; [done|].
    destruct (in_cls c a) eqn:Ha; [|done].
    eexists. split; [|exact H]. simpl. exists a, s'.
    unfold advance. simpl. by rewrite Nat.add_1_r.
  - apply star_run_sound in H as (w & s' & Hs & Hw & Hk).
    eexists. split; [|exact Hk]. simpl. by exists w, s'.
  - destruct (rest st) as [|a s'] eqn:Hr; [done|].
    destruct (in_cls c a) eqn:Ha; [|done].
    apply star_run_sound in H as (w & s'' & -> & Hw & Hk).
    eexists. split; [|exact Hk]. simpl. exists (a :: w), s''.
    split; [done|]. split; [by constructor|]. split; [done|].
    unfold advance. simpl. f_equal. lia.
  - apply rep_run_sound in H as (w & s' & Hs & Hl & Hw & Hk).
    eexists. split; [|exact Hk]. simpl. by exists w, s'.
  - destruct (run r st k) as [x|] eqn:Hx.
    + inversion H; subst x. apply IH in Hx as (st' & Hd & Hk).
      exists st'. simpl. auto.
    + exists st. simpl. auto.
  - apply IH in H as (st1 & Hd & Hk).
    eexists. split; [|exact Hk]. simpl. by exists st1.
  - apply IH1 in H as (st1 & Hd1 & H). apply IH2 in H as (st2 & Hd2 & Hk).
    exists st2. split; [|done]. simpl. by exists st1.
Qed.

(** The matcher finds a match whenever there is a way to match that the
    rest of the pattern accepts. *)
Lemma run_complete r : forall st st' k,
  den r st st' -> is_Some (k st') -> is_Some (run r st k).
Proof.
  induction r as [| | |c|c|c|m c|r IH|i r IH|r1 IH1 r2 IH2];
    intros st st' k Hd Hk; simpl in Hd |- *.
  - by subst.
  - destruct Hd as [Hp ->]. by rewrite Hp.
  - destruct Hd as [[Hr|Hr] ->]; rewrite Hr; [done|].
    by rewrite Ascii.eqb_refl.
  - destruct Hd as (a & s' & Ha & Hr & ->). rewrite Hr, Ha.
    unfold advance in Hk. simpl in Hk. by rewrite Nat.add_1_r in Hk.
  - destruct Hd as (w & s' & Hw & Hr & ->). rewrite Hr.
    by apply star_run_complete.
  - destruct Hd as (w & s' & Hne & Hw & Hr & ->). rewrite Hr.
    destruct w as [|a w]; [done|]. inversion Hw as [|? ? Ha Hw']; subst.
    simpl. rewrite Ha. apply star_run_complete; [done|].
    unfold advance in Hk. simpl in Hk.
    by rewrite <- Nat.add_succ_comm in Hk.
  - destruct Hd as (w & s' & Hl & Hw & Hr & ->). rewrite Hr. subst m.
    by rewrite rep_run_complete.
  - destruct Hd as [Hd| ->].
    + destruct (IH _ _ _ Hd Hk) as [x ->]. by eexists.
    + by destruct (run r st k).
  - destruct Hd as (st1 & Hd & ->). by eapply IH.
  - destruct Hd as (st1 & Hd1 & Hd2). eapply IH1; [exact Hd1|].
    by eapply IH2.
Qed.
End EngineFacts.

(** ** Facts about sequences of pattern elements *)

Lemma advance_advance w1 s1 w2 s2 st :
  advance w2 s2 (advance w1 s1 st) = advance (w1 ++ w2) s2 st.
Proof. unfold advance. simpl. rewrite length_app. f_equal. lia. Qed.

Lemma advance_nil st : advance [] (rest st) st = st.
Proof. destruct st. unfold advance. simpl. f_equal. lia. Qed.

Lemma take_consumed (w s' : str) n : take (n + length w - n) (w ++ s') = w.
Proof.
  replace (n + length w - n) with (length w) by lia.
  by rewrite take_app_length.
Qed.

Lemma set_group_consumed i (w s' : str) st :
  rest st = w ++ s' ->
  set_group i (take (pos (advance w s' st) - pos st) (rest st)) (advance w s' st)
  = set_group i w (advance w s' st).
Proof. intros ->. unfold advance. simpl. by rewrite take_consumed. Qed.

Section Sequences.
Implicit Types (l : list regex) (st : mstate) (c : cls).

Lemma den_cat_cons r l st st' :
  den (cat (r :: l)) st st' ↔ ∃ st1, den r st st1 ∧ den (cat l) st1 st'.
Proof. done. Qed.

Lemma den_cat_app l1 l2 st st' :
  den (cat (l1 ++ l2)) st st' ↔ ∃ st1, den (cat l1) st st1 ∧ den (cat l2) st1 st'.
Proof.
  revert st. induction l1 as [|r l1 IH]; intros st; simpl.
  - split; [intros H; by exists st|intros (st1 & -> & H); done].
  - split.
    + intros (st1 & H1 & H2). apply IH in H2 as (st2 & H2 & H3).
      exists st2. split; [by exists st1|done].
    + intros (st2 & (st1 & H1 & H2) & H3). exists st1. split; [done|].
      apply IH. by exists st2.
Qed.

Lemma den_cons_bol l st st' :
  den (cat (Bol :: l)) st st' ↔ pos st = 0 ∧ den (cat l) st st'.
Proof.
  simpl. split.
  - by intros (st1 & [H0 ->] & H).
  - intros [H0 H]. by exists st.
Qed.

Lemma den_cons_eol l st st' :
  den (cat (Eol :: l)) st st'
  ↔ (rest st = [] ∨ rest st = [newline]) ∧ den (cat l) st st'.
Proof.
  simpl. split.
  - by intros (st1 & [H0 ->] & H).
  - intros [H0 H]. by exists st.
Qed.

Lemma den_cons_cls c l st st' :
  den (cat (Cls c :: l)) st st'
  ↔ ∃ a s', in_cls c a = true ∧ rest st = a :: s'
            ∧ den (cat l) (advance [a] s' st) st'.
Proof.
  simpl. split.
  - intros (st1 & (a & s' & Ha & Hr & ->) & H). by exists a, s'.
  - intros (a & s' & Ha & Hr & H). eexists. split; [|exact H]. by exists a, s'.
Qed.

Lemma den_cons_star c l st st' :
  den (cat (Star c :: l)) st st'
  ↔ ∃ w s', Forall (fun a => in_cls c a = true) w ∧ rest st = w ++ s'
            ∧ den (cat l) (advance w s' st) st'.
Proof.
  simpl. split.
  - intros (st1 & (w & s' & Hw & Hr & ->) & H). by exists w, s'.
  - intros (w & s' & Hw & Hr & H). eexists. split; [|exact H]. by exists w, s'.
Qed.

Lemma den_cons_plus c l st st' :
  den (cat (Plus c :: l)) st st'
  ↔ ∃ w s', w ≠ [] ∧ Forall (fun a => in_cls c a = true) w
            ∧ rest st = w ++ s' ∧ den (cat l) (advance w s' st) st'.
Proof.
  simpl. split.
  - intros (st1 & (w & s' & Hn & Hw & Hr & ->) & H). by exists w, s'.
  - intros (w & s' & Hn & Hw & Hr & H). eexists. split; [|exact H].
    by exists w, s'.
Qed.

Lemma den_cons_grp i r l st st' :
  den (cat (Grp i r :: l)) st st'
  ↔ ∃ st1, den r st st1
           ∧ den (cat l) (set_group i (take (pos st1 - pos st) (rest st)) st1) st'.
Proof.
  simpl. split.
  - intros (st2 & (st1 & H1 & ->) & H). by exists st1.
  - intros (st1 & H1 & H). eexists. split; [|exact H]. by exists st1.
Qed.

(** A group around one repetition captures what the repetition read. *)
Lemma den_cons_grp_plus i c l st st' :
  den (cat (Grp i (cat [Plus c]) :: l)) st st'
  ↔ ∃ w s', w ≠ [] ∧ Forall (fun a => in_cls c a = true) w
            ∧ rest st = w ++ s'
            ∧ den (cat l) (set_group i w (advance w s' st)) st'.
Proof.
  rewrite den_cons_grp. split.
  - intros (st1 & H1 & H). apply den_cons_plus in H1 as (w & s' & Hn & Hw & Hr & ->).
    exists w, s'. repeat split; try done.
    by rewrite set_group_consumed in H.
  - intros (w & s' & Hn & Hw & Hr & H). exists (advance w s' st).
    split; [apply den_cons_plus; by exists w, s'|].
    by rewrite set_group_consumed.
Qed.

Lemma den_cons_rep n c l st st' :
  den (cat (Rep n c :: l)) st st'
  ↔ ∃ w s', length w = n ∧ Forall (fun a => in_cls c a = true) w
            ∧ rest st = w ++ s' ∧ den (cat l) (advance w s' st) st'.
Proof.
  simpl. split.
  - intros (st1 & (w & s' & Hn & Hw & Hr & ->) & H). by exists w, s'.
  - intros (w & s' & Hn & Hw & Hr & H). eexists. split; [|exact H].
    by exists w, s'.
Qed.

Lemma den_cons_grp_rep i n c l st st' :
  den (cat (Grp i (cat [Rep n c]) :: l)) st st'
  ↔ ∃ w s', length w = n ∧ Forall (fun a => in_cls c a = true) w
            ∧ rest st = w ++ s'
            ∧ den (cat l) (set_group i w (advance w s' st)) st'.
Proof.
  rewrite den_cons_grp. split.
  - intros (st1 & H1 & H). apply den_cons_rep in H1 as (w & s' & Hn & Hw & Hr & ->).
    exists w, s'. repeat split; try done.
    by rewrite set_group_consumed in H.
  - intros (w & s' & Hn & Hw & Hr & H). exists (advance w s' st).
    split; [apply den_cons_rep; by exists w, s'|].
    by rewrite set_group_consumed.
Qed.

(** A literal run of the pattern reads itself. *)
Lemma den_lits (w : str) l st st' :
  den (cat (map (fun a => Cls (CChar a)) w ++ l)) st st'
  ↔ ∃ s', rest st = w ++ s' ∧ den (cat l) (advance w s' st) st'.
Proof.
  revert st. induction w as [|a w IH]; intros st.
  - simpl. split.
    + intros H. exists (rest st). by rewrite advance_nil.
    + intros (s' & <- & H). by rewrite advance_nil in H.
  - change (map _ (a :: w) ++ l) with (Cls (CChar a) :: (map (fun a => Cls (CChar a)) w ++ l)).
    rewrite den_cons_cls. split.
    + intros (b & s' & Hb & Hr & H). apply Ascii.eqb_eq in Hb. subst b.
      apply IH in H as (s'' & Hr' & H). simpl in Hr'. subst s'.
      exists s''. split; [done|]. by rewrite advance_advance in H.
    + intros (s' & Hr & H). exists a, (w ++ s'). split; [apply Ascii.eqb_refl|].
      split; [done|]. apply IH. exists s'. split; [done|].
      by rewrite advance_advance.
Qed.

Lemma den_chars (s : string) l st st' :
  den (cat (chars s ++ l)) st st'
  ↔ ∃ s', rest st = lit s ++ s' ∧ den (cat l) (advance (lit s) s' st) st'.
Proof. apply den_lits. Qed.
End Sequences.

(** ** Facts about [search] *)

Lemma search_from_unfold r n s :
  search_from r n s
  = match match_at r n s with
    | Some g => Some g
    | None => match s with [] => None | _ :: s' => search_from r (S n) s' end
    end.
Proof. by destruct s. Qed.

Lemma search_from_bol_later l n s : search_from (cat (Bol :: l)) (S n) s = None.
Proof. revert n. induction s as [|a s IH]; intros n; simpl; [done|apply IH]. Qed.

(** An anchored pattern matches at the start of the subject or not at
    all, and it matches there exactly when there is a way to match. *)
Lemma search_bol_sound l line g :
  search (cat (Bol :: l)) line = Some g ->
  ∃ st', den (cat l) (MState 0 line []) st' ∧ grps st' = g.
Proof.
  unfold search. intros H.
  assert (match_at (cat (Bol :: l)) 0 line = Some g) as Hm.
  { rewrite search_from_unfold in H.
    destruct (match_at (cat (Bol :: l)) 0 line); [done|].
    destruct line; [done|]. by rewrite search_from_bol_later in H. }
  unfold match_at in Hm. apply run_sound in Hm as (st' & Hd & Hg).
  apply den_cons_bol in Hd as [_ Hd]. exists st'. split; [done|congruence].
Qed.

Lemma search_bol_complete l line st' :
  den (cat l) (MState 0 line []) st' -> is_Some (search (cat (Bol :: l)) line).
Proof.
  intros Hd. unfold search.
  assert (is_Some (match_at (cat (Bol :: l)) 0 line)) as [g Hg].
  { unfold match_at. eapply run_complete; [|done].
    apply den_cons_bol. split; [done|exact Hd]. }
  rewrite search_from_unfold, Hg. done.
Qed.

Lemma search_bol_none l line :
  (forall st', ¬ den (cat l) (MState 0 line []) st') ->
  search (cat (Bol :: l)) line = None.
Proof.
  intros H. destruct (search (cat (Bol :: l)) line) as [g|] eqn:Hs; [|done].
  apply search_bol_sound in Hs as (st' & Hd & _). by destruct (H st').
Qed.

(** ** Characters *)

Lemma digit_not_space a : is_digit a = true -> is_space a = false.
Proof. by_cases_on_ascii a. Qed.

Lemma host_not_space a : in_cls host_set a = true -> is_space a = false.
Proof. by_cases_on_ascii a. Qed.

Lemma word_not_space a : is_word a = true -> is_space a = false.
Proof. by_cases_on_ascii a. Qed.

(** ** Splitting at the first character outside a class *)

Lemma run_then_stop_unique (P : ascii -> bool) (w1 w2 : str) a b r1 r2 :
  Forall (fun x => P x = true) w1 -> Forall (fun x => P x = true) w2 ->
  P a = false -> P b = false ->
  w1 ++ a :: r1 = w2 ++ b :: r2 ->
  w1 = w2 ∧ a = b ∧ r1 = r2.
Proof.
  revert w2. induction w1 as [|x w1 IH]; intros w2 H1 H2 Ha Hb E.
  - destruct w2 as [|y w2]; simpl in E.
    + by inversion E.
    + inversion E; subst. inversion H2; subst. congruence.
  - destruct w2 as [|y w2]; simpl in E.
    + inversion E; subst. inversion H1; subst. congruence.
    + inversion E; subst. inversion H1; inversion H2; subst.
      destruct (IH w2) as (-> & -> & ->); auto.
Qed.

(** ** Facts about fields *)

Lemma split_ws_run (w : str) : forall cur s,
  Forall (fun a => is_space a = false) w ->
  split_ws cur (w ++ s) = split_ws (cur ++ w) s.
Proof.
  induction w as [|a w IH]; intros cur s Hw; simpl.
  - by rewrite app_nil_r.
  - inversion Hw as [|? ? Ha Hw']; subst. rewrite Ha, IH by done.
    by rewrite <- app_assoc.
Qed.

Lemma split_ws_space cur a s :
  is_space a = true -> cur ≠ [] ->
  split_ws cur (a :: s) = cur :: split_ws [] s.
Proof. intros Ha Hc. simpl. rewrite Ha. by destruct cur. Qed.

(** The first two fields of a line that starts as every kill pattern
    demands. *)
Lemma fields_header (ts host msg : str) sp1 sp2 :
  ts ≠ [] -> Forall (fun a => is_space a = false) ts -> is_space sp1 = true ->
  host ≠ [] -> Forall (fun a => is_space a = false) host -> is_space sp2 = true ->
  fields (ts ++ sp1 :: host ++ sp2 :: msg) = ts :: host :: fields msg.
Proof.
  intros Hts Hts' H1 Hh Hh' H2. unfold fields.
  rewrite split_ws_run by done. simpl app at 1.
  rewrite split_ws_space by done. f_equal.
  rewrite split_ws_run by done. simpl app at 1.
  by rewrite split_ws_space.
Qed.

(** ** What a kill pattern asks of the head of a line *)

Lemma den_kill_header body line st' :
  den (cat (kill_header ++ body)) (MState 0 line []) st'
  ↔ ∃ ts host msg, well_started line ts host msg
                   ∧ den (cat body) (after_header ts host msg) st'.
Proof.
  split.
  - intros H. apply den_cons_grp_plus in H as (ts & s1 & Hts & Hd & Hr & H).
    simpl in Hr.
    apply den_cons_cls in H as (sp1 & s2 & H1 & Hr1 & H). simpl in Hr1.
    apply den_cons_grp_plus in H as (host & s3 & Hh & Hhc & Hr2 & H).
    simpl in Hr2.
    apply den_cons_cls in H as (sp2 & msg & H2 & Hr3 & H). simpl in Hr3.
    subst. exists ts, host, msg. split.
    + exists sp1, sp2. repeat split; done.
    + exact H.
  - intros (ts & host & msg & (sp1 & sp2 & -> & Hts & Hd & H1 & Hh & Hhc & H2) & H).
    apply den_cons_grp_plus.
    exists ts, (sp1 :: host ++ sp2 :: msg). repeat split; try done.
    apply den_cons_cls. exists sp1, (host ++ sp2 :: msg). repeat split; try done.
    apply den_cons_grp_plus. exists host, (sp2 :: msg). repeat split; try done.
    apply den_cons_cls. exists sp2, msg. repeat split; try done.
Qed.

(** The split of a line that starts well is the only one. *)
Lemma well_started_unique line ts host msg ts' host' msg' :
  well_started line ts host msg -> well_started line ts' host' msg' ->
  ts' = ts ∧ host' = host ∧ msg' = msg.
Proof.
  intros (sp1 & sp2 & -> & _ & Hd & H1 & _ & Hh & H2)
         (sp1' & sp2' & E & _ & Hd' & H1' & _ & Hh' & H2').
  assert (forall a, is_space a = true -> is_digit a = false) as Hds.
  { intros a Ha. destruct (is_digit a) eqn:E'; [|done].
    apply digit_not_space in E'. congruence. }
  assert (forall a, is_space a = true -> in_cls host_set a = false) as Hhs.
  { intros a Ha. destruct (in_cls host_set a) eqn:E'; [|done].
    apply host_not_space in E'. congruence. }
  apply (run_then_stop_unique is_digit) in E as (-> & -> & E); auto.
  apply (run_then_stop_unique (in_cls host_set)) in E as (-> & -> & ->); auto.
Qed.

Lemma well_started_fields line ts host msg :
  well_started line ts host msg -> fields line = ts :: host :: fields msg.
Proof.
  intros (sp1 & sp2 & -> & Hts & Hd & H1 & Hh & Hhc & H2).
  apply fields_header; try done.
  - eapply Forall_impl; [exact Hd|]. intros a. apply digit_not_space.
  - eapply Forall_impl; [exact Hhc|]. intros a. apply host_not_space.
Qed.

(** Matching moves the cursor over a prefix of what is left and only adds
    bindings, of groups of the expression. *)
Lemma den_effect r : forall st st',
  den r st st' ->
  ∃ w extra, rest st = w ++ rest st' ∧ pos st' = pos st + length w
             ∧ grps st' = extra ++ grps st
             ∧ Forall (fun p => p.1 ∈ binds r) extra.
Proof.
  induction r as [| | |c|c|c|m c|r IH|i r IH|r1 IH1 r2 IH2];
    intros st st' H; simpl in H.
  - subst. exists [], []. simpl. by rewrite Nat.add_0_r.
  - destruct H as [_ ->]. exists [], []. simpl. by rewrite Nat.add_0_r.
  - destruct H as [_ ->]. exists [], []. simpl. by rewrite Nat.add_0_r.
  - destruct H as (a & s' & _ & Hr & ->). by exists [a], [].
  - destruct H as (w & s' & _ & Hr & ->). by exists w, [].
  - destruct H as (w & s' & _ & _ & Hr & ->). by exists w, [].
  - destruct H as (w & s' & _ & _ & Hr & ->). by exists w, [].
  - destruct H as [H| ->].
    + by apply IH in H.
    + exists [], []. simpl. by rewrite Nat.add_0_r.
  - destruct H as (st1 & H & ->). apply IH in H as (w & extra & Hr & Hp & Hg & Hb).
    exists w, ((i, take (pos st1 - pos st) (rest st)) :: extra). simpl.
    repeat split; try done.
    + by rewrite Hg.
    + constructor; [simpl; left|].
      eapply Forall_impl; [exact Hb|]. intros p Hq. by right.
  - destruct H as (st1 & H1 & H2).
    apply IH1 in H1 as (w1 & e1 & Hr1 & Hp1 & Hg1 & Hb1).
    apply IH2 in H2 as (w2 & e2 & Hr2 & Hp2 & Hg2 & Hb2).
    exists (w1 ++ w2), (e2 ++ e1). rewrite Hr1, Hr2, Hp2, Hp1, Hg2, Hg1.
    rewrite length_app, !app_assoc. repeat split; try done; [lia|].
    apply Forall_app. split.
    + eapply Forall_impl; [exact Hb2|]. intros p Hq. simpl.
      apply elem_of_app. by right.
    + eapply Forall_impl; [exact Hb1|]. intros p Hq. simpl.
      apply elem_of_app. by left.
Qed.

Lemma group_skip i (extra g : list (nat * str)) :
  Forall (fun p => p.1 ≠ i) extra -> group i (extra ++ g) = group i g.
Proof.
  induction extra as [|[j w] extra IH]; intros H; [done|].
  inversion H as [|? ? Hj Hrest]; subst. simpl in Hj.
  unfold group in *. simpl. destruct (Nat.eqb_spec j i); [done|]. by apply IH.
Qed.

Lemma event_detail_regexes_kill r :
  r ∈ event_detail_regexes -> is_kill_pattern r.
Proof.
  unfold event_detail_regexes. rewrite !elem_of_cons, elem_of_nil.
  intros [->|[->|[->|[->|[->|[]]]]]]; eexists; split; reflexivity.
Qed.

(** What a match of a kill pattern says about the line. *)
Lemma kill_pattern_match r line g :
  is_kill_pattern r -> search r line = Some g ->
  ∃ ts host msg, well_started line ts host msg
                 ∧ group_str 1 g = ts ∧ group_str 2 g = host.
Proof.
  intros (body & -> & Hb) Hs.
  apply search_bol_sound in Hs as (st' & Hd & <-).
  apply den_kill_header in Hd as (ts & host & msg & Hw & Hd).
  exists ts, host, msg. split; [done|].
  apply den_effect in Hd as (_ & extra & _ & _ & -> & He). rewrite Hb in He.
  assert (forall i, i ≠ 3 -> Forall (fun p : nat * str => p.1 ≠ i) extra) as Hne.
  { intros i Hi. eapply Forall_impl; [exact He|]. intros p Hp.
    apply list_elem_of_singleton in Hp. congruence. }
  unfold group_str. rewrite !group_skip by (apply Hne; lia). done.
Qed.

(** ** Facts about the scanner *)

Lemma first_match_none_iff rs line :
  first_match rs line = None ↔ forall r, r ∈ rs -> search r line = None.
Proof.
  induction rs as [|r rs IH]; simpl.
  - split; [intros _ r Hr; by apply elem_of_nil in Hr|done].
  - destruct (search r line) eqn:Hs.
    + split; [done|]. intros H. rewrite <- Hs. apply H. by left.
    + rewrite IH. split.
      * intros H r' Hr'. apply elem_of_cons in Hr' as [->|Hr']; auto.
      * intros H r' Hr'. apply H. by right.
Qed.

Lemma scan_cons process_name line stdin :
  line ≠ [] ->
  scan process_name (line :: stdin)
  = match first_match event_detail_regexes line with
    | Some r =>
        (int_of_str (group_str 1 r), group_str 2 r, group_str 3 r,
         note_process_name process_name line) :: scan [] stdin
    | None => scan (note_process_name process_name line) stdin
    end.
Proof. intros Hl. by destruct line. Qed.

Lemma scan_cons_none process_name line stdin :
  line ≠ [] -> first_match event_detail_regexes line = None ->
  scan process_name (line :: stdin)
  = scan (note_process_name process_name line) stdin.
Proof. intros Hl Hm. by rewrite scan_cons, Hm. Qed.


(** C10. Every kill pattern takes the hostname from [[a-zA-Z0-9-]]: a line
    whose second whitespace-separated field has a character outside that
    class is matched by no kill pattern, and the scanner yields nothing
    for it. *)
Theorem hostname_class_gates_every_recogniser (line f : str) (a : ascii) :
  fields line !! 1 = Some f -> a ∈ f -> in_cls host_set a = false ->
  (forall r, r ∈ event_detail_regexes -> search r line = None)
  ∧ capture_oom_events_from_stdin [line] = []
  ∧ (forall process_name stdin,
       scan process_name (line :: stdin)
       = scan (note_process_name process_name line) stdin).
Proof.
  intros Hf Ha Hc.
  assert (forall r, r ∈ event_detail_regexes -> search r line = None) as Hnone.
  { intros r Hr. destruct (search r line) as [g|] eqn:Hs; [|done].
    apply event_detail_regexes_kill in Hr.
    destruct (kill_pattern_match r line g Hr Hs)
      as (ts & host & msg & Hw & _ & _).
    rewrite (well_started_fields _ _ _ _ Hw) in Hf. simpl in Hf.
    inversion Hf; subst f.
    destruct Hw as (_ & _ & _ & _ & _ & _ & _ & Hh & _).
    rewrite Forall_forall in Hh. specialize (Hh a Ha). congruence. }
  assert (line ≠ []) as Hl by (intros ->; done).
  apply first_match_none_iff in Hnone as Hm.
  split; [done|]. split.
  - unfold capture_oom_events_from_stdin. by rewrite scan_cons_none.
  - intros pn stdin. by apply scan_cons_none.
Qed.

Lemma hostname_class_gates_every_recogniser_witness :
  fields line_of_qualified_host !! 1 = Some (lit "host.example.com")
  ∧ capture_oom_events_from_stdin [line_of_qualified_host] = [].
Proof.
  assert (fields line_of_qualified_host !! 1 = Some (lit "host.example.com"))
    as Hf by (vm_compute; reflexivity).
  split; [exact Hf|].
  refine (proj1 (proj2 (hostname_class_gates_every_recogniser
            line_of_qualified_host (lit "host.example.com") "."%char Hf _ _))).
  - vm_compute. set_solver.
  - vm_compute. reflexivity.
Defined.



(** C6. The example of the specification, from the line to the record. *)
Theorem end_to_end_example :
  capture_oom_events_from_stdin
    [lit "1700000000 nodeA kernel: Task in /docker/abcdef012345abcdef killed as a result of limit of /docker/abcdef012345abcdef"]
  = [(1700000000%Z, lit "nodeA", lit "abcdef012345", lit "")]
  ∧ forall cluster : str,
      let env_vars : gmap str str :=
        <[lit "PAASTA_INSTANCE" := lit "main"]>
          (<[lit "PAASTA_SERVICE" := lit "web"]> ∅) in
      let log_line :=
        make_log_line cluster
          (1700000000%Z, lit "nodeA", lit "abcdef012345", lit "") env_vars in
      service log_line = lit "web"
      ∧ instance log_line = lit "main"
      ∧ mem_limit log_line = lit "unknown"
      ∧ mesos_container_id log_line = lit "mesos-null".
Proof.
  split; [vm_compute; reflexivity|].
  intros cluster. repeat split; vm_compute; reflexivity.
Qed.

(** The text the sinks are given for that record. *)
Lemma format_d_example : format_d 1700000000 = lit "1700000000".
Proof. vm_compute. reflexivity. Qed.

Lemma paasta_line_example :
  paasta_line
    (mkLogLine 1700000000%Z (lit "nodeA") (lit "abcdef012345") (lit "norcal-devc")
       (lit "web") (lit "main") (lit "") (lit "mesos-null") (lit "unknown"))
  = lit "oom-killer killed a process on nodeA (container_id: abcdef012345)."
  ∧ paasta_line
      (mkLogLine 1700000000%Z (lit "nodeA") (lit "abcdef012345") (lit "norcal-devc")
         (lit "web") (lit "main") (lit "java") (lit "mesos-null") (lit "unknown"))
    = lit "oom-killer killed a java process on nodeA (container_id: abcdef012345).".
Proof. split; vm_compute; reflexivity. Qed.

(** A variable is split at its first [=]; the value may hold more. *)
Lemma partition_eq_example :
  partition_eq (lit "JAVA_OPTS=-Dk=v") = (lit "JAVA_OPTS", lit "-Dk=v")
  ∧ partition_eq (lit "EMPTY") = (lit "EMPTY", lit "").
Proof. split; vm_compute; reflexivity. Qed.

(** C9. Each attribute of the record is the value of its variable, or its
    own default when the variable is absent, whatever the others are. *)
Theorem log_line_defaults (env_vars : gmap str str) (cluster : str)
    (occ : occurrence) :
  let log_line := make_log_line cluster occ env_vars in
  service log_line
    = match env_vars !! lit "PAASTA_SERVICE" with
      | Some value => value
      | None => lit "unknown"
      end
  ∧ instance log_line
    = match env_vars !! lit "PAASTA_INSTANCE" with
      | Some value => value
      | None => lit "unknown"
      end
  ∧ mesos_container_id log_line
    = match env_vars !! lit "MESOS_CONTAINER_NAME" with
      | Some value => value
      | None => lit "mesos-null"
      end
  ∧ mem_limit log_line
    = match env_vars !! lit "PAASTA_RESOURCE_MEM" with
      | Some value => value
      | None => lit "unknown"
      end.
Proof.
  destruct occ as [[[t h] c] p]. unfold make_log_line, env_get. simpl.
  repeat split; by destruct (env_vars !! _).
Qed.


(** ** [get_container_env_as_dict] *)

(** C3. With the config section absent or null the function does not
    return the empty map: [config.get] is called on [None] before the
    test [config is not None] is reached, and raises. *)
Theorem absent_config_raises (is_cri_containerd : bool)
    (items : list (str * pyval)) :
  let key := if is_cri_containerd then lit "process" else lit "Config" in
  dict_find key items = None ∨ dict_find key items = Some PNone ->
  get_container_env_as_dict is_cri_containerd (PDict items)
  = Raises AttributeError.
Proof.
  intros key H.
  assert (forall k d, py_get (PDict items) k d = Returns (default d (dict_find k items)))
    as Hget by reflexivity.
  destruct is_cri_containerd; subst key; cbv iota in H;
    unfold get_container_env_as_dict; cbv iota; rewrite Hget;
    destruct H as [H|H]; rewrite H; reflexivity.
Qed.

Lemma absent_config_raises_witness :
  get_container_env_as_dict true (PDict []) = Raises AttributeError
  ∧ get_container_env_as_dict false (PDict [(lit "Config", PNone)])
    = Raises AttributeError.
Proof.
  split.
  - apply (absent_config_raises true []). left. reflexivity.
  - apply (absent_config_raises false [(lit "Config", PNone)]). right.
    reflexivity.
Defined.

(** ** The loop of [main] *)

Section Loop.
Context {W : Type}.
Variable respond : forall c : call, W -> outcome (reply c) * W.
Variable json_loads : list N -> outcome pyval.
Variable DEFAULT_LOGLEVEL : str.
Variable yelp_meteorite_imported : bool.

Local Abbreviation dispatch := (dispatch respond DEFAULT_LOGLEVEL yelp_meteorite_imported).
Local Abbreviation send_sfx_event := (send_sfx_event respond yelp_meteorite_imported).
Local Abbreviation inspect := (inspect respond json_loads).
Local Abbreviation iteration :=
  (iteration respond json_loads DEFAULT_LOGLEVEL yelp_meteorite_imported).
Local Abbreviation main_loop :=
  (main_loop respond json_loads DEFAULT_LOGLEVEL yelp_meteorite_imported).

Lemma perform_returns (c : call) (s : run_state) (v : reply c) (w : W) :
  respond c (world s) = (Returns v, w) ->
  perform respond c s = (Returns v, RunState w (calls s ++ [c])).
Proof. unfold perform. by intros ->. Qed.

Lemma perform_raises (c : call) (s : run_state) (e : exn) (w : W) :
  respond c (world s) = (Raises e, w) ->
  perform respond c s = (Raises e, RunState w (calls s ++ [c])).
Proof. unfold perform. by intros ->. Qed.

(** C2, as the code has it. The sinks are called in the order
    structured-event sink, operator log sink, metrics sink; a sink that
    raises ends the dispatch, and the sinks after it are not called. *)
Theorem sinks_in_order_failure_propagates (log_line : LogLine) (s : run_state) :
  (forall e w1,
      respond (clog_call log_line) (world s) = (Raises e, w1) ->
      dispatch log_line s
      = (Raises e, RunState w1 (calls s ++ [clog_call log_line])))
  ∧ (forall e w1 w2,
      respond (clog_call log_line) (world s) = (Returns tt, w1) ->
      respond (paasta_call DEFAULT_LOGLEVEL log_line) w1 = (Raises e, w2) ->
      dispatch log_line s
      = (Raises e,
         RunState w2 (calls s ++ [clog_call log_line; paasta_call DEFAULT_LOGLEVEL log_line])))
  ∧ (forall w1 w2,
      respond (clog_call log_line) (world s) = (Returns tt, w1) ->
      respond (paasta_call DEFAULT_LOGLEVEL log_line) w1 = (Returns tt, w2) ->
      dispatch log_line s
      = send_sfx_event (service log_line) (instance log_line) (cluster log_line)
          (RunState w2 (calls s ++ [clog_call log_line; paasta_call DEFAULT_LOGLEVEL log_line])))
  ∧ (forall w1 w2 pool w3 w4 w5,
      yelp_meteorite_imported = true ->
      respond (clog_call log_line) (world s) = (Returns tt, w1) ->
      respond (paasta_call DEFAULT_LOGLEVEL log_line) w1 = (Returns tt, w2) ->
      respond (GetPool (service log_line) (instance log_line) (cluster log_line)) w2
      = (Returns pool, w3) ->
      respond (EmitEvent (lit "paasta.service.oom_events")
                 (sfx_dimensions (service log_line) (instance log_line)
                    (cluster log_line) pool)) w3
      = (Returns tt, w4) ->
      respond (CounterCount (lit "paasta.service.oom_count")
                 (sfx_dimensions (service log_line) (instance log_line)
                    (cluster log_line) pool)) w4
      = (Returns tt, w5) ->
      dispatch log_line s
      = (Returns tt,
         RunState w5 (calls s ++ clog_call log_line
                              :: paasta_call DEFAULT_LOGLEVEL log_line
                              :: metrics_calls log_line pool))).
Proof.
  unfold dispatch, log_to_clog, log_to_paasta, mbind, M_bind.
  fold (clog_call log_line). fold (paasta_call DEFAULT_LOGLEVEL log_line).
  split; [|split; [|split]].
  - intros e w1 H1. by rewrite (perform_raises _ _ _ _ H1).
  - intros e w1 w2 H1 H2. rewrite (perform_returns _ _ _ _ H1).
    rewrite (perform_raises (paasta_call DEFAULT_LOGLEVEL log_line)
               (RunState w1 _) e w2 H2).
    simpl. by rewrite <- app_assoc.
  - intros w1 w2 H1 H2. rewrite (perform_returns _ _ _ _ H1).
    rewrite (perform_returns (paasta_call DEFAULT_LOGLEVEL log_line)
               (RunState w1 _) tt w2 H2).
    simpl. by rewrite <- app_assoc.
  - intros w1 w2 pool w3 w4 w5 Hm H1 H2 H3 H4 H5.
    rewrite (perform_returns _ _ _ _ H1).
    rewrite (perform_returns (paasta_call DEFAULT_LOGLEVEL log_line)
               (RunState w1 _) tt w2 H2).
    unfold send_sfx_event, mbind, M_bind. rewrite Hm.
    rewrite (perform_returns (GetPool _ _ _) (RunState w2 _) pool w3 H3).
    rewrite (perform_returns (EmitEvent _ _) (RunState w3 _) tt w4 H4).
    rewrite (perform_returns (CounterCount _ _) (RunState w4 _) tt w5 H5).
    simpl. by rewrite <- !app_assoc.
Qed.

(** C1, as the code has it. An API error of the classic engine or an
    RPC error of containerd drops the occurrence and the loop goes on
    with the next one; a spec payload that does not decode, as UTF-8 or
    as JSON, is outside the [try] and ends the loop. *)
Theorem lookup_error_drops_decode_error_escapes (cluster : str)
    (occ : occurrence) (occs : list occurrence) (s : run_state) :
  let container_id := occ_container_id occ in
  (forall w1,
      respond (InspectContainer container_id) (world s) = (Raises APIError, w1) ->
      main_loop false cluster (occ :: occs) s
      = main_loop false cluster occs
          (RunState w1 (calls s ++ [InspectContainer container_id])))
  ∧ (forall w1,
      respond (ContainerdGet container_id) (world s) = (Raises RpcError, w1) ->
      main_loop true cluster (occ :: occs) s
      = main_loop true cluster occs
          (RunState w1
             (calls s ++ [ContainerdGet container_id;
                          Print false
                            (lit "An error occurred while getting the container:")
                            (Some RpcError)])))
  ∧ (forall value w1 e,
      respond (ContainerdGet container_id) (world s) = (Returns value, w1) ->
      decode_utf8 value = Raises e
      ∨ (∃ text, decode_utf8 value = Returns text ∧ json_loads text = Raises e) ->
      main_loop true cluster (occ :: occs) s
      = (Raises e, RunState w1 (calls s ++ [ContainerdGet container_id]))).
Proof.
  destruct occ as [[[t h] c] p]. simpl.
  split; [|split].
  - intros w1 H.
    unfold iteration, inspect, try_except, mbind, M_bind.
    by rewrite (perform_raises (InspectContainer c) s APIError w1 H).
  - intros w1 H.
    unfold iteration, inspect, try_except, mbind, M_bind.
    rewrite (perform_raises (ContainerdGet c) s RpcError w1 H).
    unfold print. simpl. by rewrite <- app_assoc.
  - intros value w1 e H Hd.
    unfold iteration, inspect, try_except, mbind, M_bind.
    rewrite (perform_returns (ContainerdGet c) s value w1 H).
    unfold mret, M_ret, lift.
    destruct Hd as [->|(text & -> & ->)]; reflexivity.
Qed.
End Loop.

Lemma lookup_error_drops_decode_error_escapes_witness :
  main_loop first_lookup_fails_world json_loads_stub level_event true false
    (lit "norcal-devc") [first_occurrence; second_occurrence] (RunState () [])
  = main_loop first_lookup_fails_world json_loads_stub level_event true false
      (lit "norcal-devc") [second_occurrence]
      (RunState () [InspectContainer (lit "abcdef012345")]).
Proof.
  apply (proj1 (lookup_error_drops_decode_error_escapes
                  first_lookup_fails_world json_loads_stub level_event true
                  (lit "norcal-devc") first_occurrence [second_occurrence]
                  (RunState () []))).
  reflexivity.
Defined.

(** C1, as the specification states it, fails: the payload of the first
    container is not UTF-8, [main] ends with [UnicodeDecodeError], and the
    second occurrence is never looked up. *)
Lemma decode_failure_ends_the_stream :
  capture_oom_events_from_stdin [first_kill_line; second_kill_line]
  = [first_occurrence; second_occurrence]
  ∧ main plain_world json_loads_stub level_event true true true
      [first_kill_line; second_kill_line] (RunState () [])
    = (Raises UnicodeDecodeError,
       RunState () [ClogConfigure; GetCluster; GetDockerClient;
                    ContainerdGet (lit "abcdef012345")]).
Proof. split; vm_compute; reflexivity. Qed.

(** C2, as the specification states it, fails: the structured-event sink
    raises, [main] ends with that exception, and neither the operator log
    sink nor the metrics sink is called for the occurrence. *)
Lemma failing_sink_blocks_the_others :
  main clog_down_world json_loads_stub level_event true true false
    [first_kill_line] (RunState () [])
  = (Raises (OtherError (lit "ConnectionError")),
     RunState () [ClogConfigure; GetCluster; GetDockerClient;
                  InspectContainer (lit "abcdef012345");
                  clog_call first_log_line]).
Proof. vm_compute. reflexivity. Qed.

Lemma sinks_in_order_failure_propagates_witness :
  dispatch clog_down_world level_event false first_log_line (RunState () [])
  = (Raises (OtherError (lit "ConnectionError")),
     RunState () [clog_call first_log_line]).
Proof.
  apply (proj1 (sinks_in_order_failure_propagates clog_down_world level_event
                  false first_log_line (RunState () []))).
  reflexivity.
Defined.

(** In the world where every sink answers, the same line reaches all
    three, in order. *)
Lemma all_sinks_reached_in_order :
  main plain_world json_loads_stub level_event true true false
    [first_kill_line] (RunState () [])
  = (Returns (),
     RunState () ([ClogConfigure; GetCluster; GetDockerClient;
                   InspectContainer (lit "abcdef012345");
                   clog_call first_log_line;
                   paasta_call level_event first_log_line]
                  ++ metrics_calls first_log_line (lit "default"))).
Proof. vm_compute. reflexivity. Qed.

(** ** The process-name slot *)

Lemma slot_after_cons process_name line (stdin : list str) :
  slot_after process_name (line :: stdin)
  = slot_after (match first_match event_detail_regexes line with
                | Some _ => []
                | None => note_process_name process_name line
                end) stdin.
Proof. reflexivity. Qed.

Lemma scan_app process_name (pre post : list str) :
  Forall (fun l => l ≠ []) pre ->
  scan process_name (pre ++ post)
  = scan process_name pre ++ scan (slot_after process_name pre) post.
Proof.
  revert process_name. induction pre as [|l pre IH]; intros pn H; [done|].
  inversion H as [|? ? Hl Hpre]; subst.
  change ((l :: pre) ++ post) with (l :: (pre ++ post)).
  rewrite !scan_cons by done.
  rewrite slot_after_cons.
  destruct (first_match event_detail_regexes l); rewrite IH by done;
    reflexivity.
Qed.

Lemma note_no_process_name process_name line :
  no_process_name line -> note_process_name process_name line = process_name.
Proof. unfold no_process_name, note_process_name. by intros ->. Qed.


Lemma slot_after_quiet process_name (stdin : list str) :
  Forall quiet stdin -> slot_after process_name stdin = process_name
                        ∧ scan process_name stdin = [].
Proof.
  revert process_name. induction stdin as [|l stdin IH]; intros pn H; [done|].
  inversion H as [|? ? (Hl & Hp & Hk) H']; subst.
  rewrite scan_cons by done. rewrite slot_after_cons.
  unfold no_kill in Hk. rewrite Hk.
  rewrite note_no_process_name by done. by apply IH.
Qed.





Lemma first_match_some rs line g :
  first_match rs line = Some g -> ∃ r, r ∈ rs ∧ search r line = Some g.
Proof.
  induction rs as [|r rs IH]; simpl; [done|].
  destruct (search r line) eqn:Hs.
  - intros [= ->]. exists r. split; [by left|done].
  - intros H. apply IH in H as (r' & Hr' & H). exists r'. split; [by right|done].
Qed.








(** ** The pattern of the systemd layout with docker *)

Lemma systemd_cgroup_shape :
  oom_regex_kubernetes_systemd_cgroup = cat (Bol :: kill_header ++ systemd_body).
Proof. reflexivity. Qed.

(** Every way to match the body reads a message of the layout. *)
Lemma den_systemd_body_inv st st' :
  den (cat systemd_body) st st' ->
  ∃ x1 x2 x3 g3 w x4 e,
    rest st = systemd_message x1 x2 x3 g3 w (x4 ++ e)
    ∧ one_line x1 ∧ one_line x2
    ∧ x3 ≠ [] ∧ Forall (fun a => in_cls not_comma a = true) x3
    ∧ length g3 = 12 ∧ Forall (fun a => is_word a = true) g3
    ∧ w ≠ [] ∧ Forall (fun a => is_word a = true) w
    ∧ one_line x4 ∧ line_end e
    ∧ grps st' = (3, g3) :: grps st.
Proof.
  unfold systemd_body, systemd_message, systemd_marker. intros H.
  apply den_cons_star in H as (x1 & s1 & H1 & R1 & H).
  apply den_chars in H as (s2 & R2 & H).
  apply den_cons_star in H as (x2 & s3 & H2 & R3 & H).
  apply den_chars in H as (s4 & R4 & H).
  apply den_cons_plus in H as (x3 & s5 & N3 & H3 & R5 & H).
  apply den_chars in H as (s6 & R6 & H).
  apply den_cons_grp_rep in H as (g3 & s7 & L3 & G3 & R7 & H).
  apply den_cons_plus in H as (w & s8 & Nw & Hw & R8 & H).
  apply den_chars in H as (s9 & R9 & H).
  apply den_cons_star in H as (x4 & e & H4 & R10 & H).
  apply den_cons_eol in H as (He & H).
  simpl in R2, R3, R4, R5, R6, R7, R8, R9, R10, He, H. subst st'.
  exists x1, x2, x3, g3, w, x4, e.
  rewrite R1, R2, R3, R4, R5, R6, R7, R8, R9, R10. repeat split; done.
Qed.


(** ** Facts about the offsets of a marker *)

Lemma is_prefix_app (p s : str) : is_prefix p (p ++ s) = true.
Proof. induction p as [|a p IH]; simpl; [done|]. by rewrite Ascii.eqb_refl. Qed.

Lemma offsets_from_complete (marker a b : str) : forall n,
  n + length a ∈ offsets_from n marker (a ++ marker ++ b).
Proof.
  induction a as [|x a IH]; intros n.
  - rewrite Nat.add_0_r. simpl app.
    destruct (marker ++ b) eqn:E; simpl; rewrite <- ?E, is_prefix_app; set_solver.
  - simpl. apply elem_of_app. right.
    rewrite <- Nat.add_succ_comm. apply IH.
Qed.

Lemma offsets_complete (marker a b : str) :
  length a ∈ offsets marker (a ++ marker ++ b).
Proof. apply (offsets_from_complete marker a b 0). Qed.

Lemma stop_then_run_unique (P : ascii -> bool) (l1 l2 w1 w2 : str) a b :
  Forall (fun x => P x = true) w1 -> Forall (fun x => P x = true) w2 ->
  P a = false -> P b = false ->
  l1 ++ a :: w1 = l2 ++ b :: w2 ->
  l1 = l2 ∧ a = b ∧ w1 = w2.
Proof.
  intros H1 H2 Ha Hb E. apply (f_equal reverse) in E.
  rewrite !reverse_app, !reverse_cons, <- !app_assoc in E. simpl in E.
  apply (run_then_stop_unique P) in E as (E1 & -> & E2); try done.
  - split; [|split; [done|]].
    + by apply (inj reverse).
    + by apply (inj reverse).
  - by apply Forall_reverse.
  - by apply Forall_reverse.
Qed.

Lemma word_not_comma a : is_word a = true -> in_cls not_comma a = true.
Proof. by_cases_on_ascii a. Qed.

(** ** The id of the systemd layout *)

(** Two readings of a message in which the marker occurs once, the second
    as the pattern reads it: group 3 holds the first twelve characters
    after [docker-]. *)
Lemma systemd_message_run (pre mid slice id more tail x1 x2 x3 g3 w x4 : str) :
  systemd_message pre mid slice id more tail
  = systemd_message x1 x2 x3 g3 w x4 ->
  offsets systemd_marker (systemd_message pre mid slice id more tail)
  = [length (pre ++ lit "oom-kill:" ++ mid)] ->
  Forall (fun a => in_cls not_comma a = true) slice ->
  Forall (fun a => is_word a = true) (id ++ more) ->
  Forall (fun a => in_cls not_comma a = true) x3 ->
  Forall (fun a => is_word a = true) g3 ->
  Forall (fun a => is_word a = true) w ->
  g3 ++ w = id ++ more.
Proof.
  intros E Hoff Hslice Hid Hx3 Hg3 Hw.
  (* the marker is where it is expected *)
  assert (length (x1 ++ lit "oom-kill:" ++ x2) = length (pre ++ lit "oom-kill:" ++ mid))
    as Hlen.
  { pose proof (offsets_complete systemd_marker (x1 ++ lit "oom-kill:" ++ x2)
                  (x3 ++ lit "docker-" ++ g3 ++ w ++ lit ".scope," ++ x4)) as Hin.
    replace ((x1 ++ lit "oom-kill:" ++ x2) ++ systemd_marker
             ++ x3 ++ lit "docker-" ++ g3 ++ w ++ lit ".scope," ++ x4)
      with (systemd_message pre mid slice id more tail) in Hin
      by (rewrite E; unfold systemd_message; by rewrite <- !app_assoc).
    rewrite Hoff in Hin. by apply list_elem_of_singleton in Hin. }
  unfold systemd_message in E.
  assert ((pre ++ lit "oom-kill:" ++ mid) ++ systemd_marker
            ++ slice ++ lit "docker-" ++ id ++ more ++ lit ".scope," ++ tail
          = (x1 ++ lit "oom-kill:" ++ x2) ++ systemd_marker
            ++ x3 ++ lit "docker-" ++ g3 ++ w ++ lit ".scope," ++ x4) as E'
    by (by rewrite <- !app_assoc).
  apply app_inj_1 in E' as [_ E']; [|done].
  apply app_inv_head in E'.
  (* up to the first comma *)
  assert ((slice ++ lit "docker-" ++ id ++ more ++ lit ".scope") ++ ","%char :: tail
          = (x3 ++ lit "docker-" ++ g3 ++ w ++ lit ".scope") ++ ","%char :: x4) as E2.
  { rewrite <- !app_assoc. exact E'. }
  apply (run_then_stop_unique (in_cls not_comma)) in E2 as (E2 & _ & _);
    try done.
  2:{ apply Forall_app. split; [done|]. apply Forall_app. split; [by repeat constructor|].
      rewrite app_assoc. apply Forall_app. split; [|by repeat constructor].
      eapply Forall_impl; [exact Hid|]. apply word_not_comma. }
  2:{ apply Forall_app. split; [done|]. apply Forall_app. split; [by repeat constructor|].
      apply Forall_app. split; [eapply Forall_impl; [exact Hg3|]; apply word_not_comma|].
      apply Forall_app. split; [|by repeat constructor].
      eapply Forall_impl; [exact Hw|]. apply word_not_comma. }
  (* back from [.scope] to the hyphen *)
  assert ((slice ++ lit "docker") ++ "-"%char :: (id ++ more) ++ lit ".scope"
          = (x3 ++ lit "docker") ++ "-"%char :: (g3 ++ w) ++ lit ".scope") as E3.
  { rewrite <- !app_assoc. exact E2. }
  rewrite !app_comm_cons, !app_assoc in E3.
  apply app_inj_2 in E3 as [E3 _]; [|done].
  rewrite <- !app_assoc in E3. simpl in E3.
  assert ((slice ++ lit "docker") ++ "-"%char :: (id ++ more)
          = (x3 ++ lit "docker") ++ "-"%char :: (g3 ++ w)) as E4.
  { rewrite <- !app_assoc. exact E3. }
  apply (stop_then_run_unique is_word) in E4 as (_ & _ & E4); try done.
  apply Forall_app. by split.
Qed.



(** With twelve characters after [docker-] and no more, the pattern has
    no way to match: [\w+] finds nothing before [.scope]. *)
Lemma systemd_search_twelve (ts host pre mid slice id tail : str) :
  Forall (fun a => in_cls not_comma a = true) slice ->
  length id = 12 -> Forall (fun a => is_word a = true) id ->
  offsets systemd_marker (systemd_message pre mid slice id [] tail)
  = [length (pre ++ lit "oom-kill:" ++ mid)] ->
  well_started (systemd_docker_line ts host pre mid slice id [] tail) ts host
    (systemd_message pre mid slice id [] tail) ->
  search oom_regex_kubernetes_systemd_cgroup
    (systemd_docker_line ts host pre mid slice id [] tail)
  = None.
Proof.
  intros Hsl Lid Hid Hoff Hw.
  rewrite systemd_cgroup_shape. apply search_bol_none. intros st' Hd.
  apply den_kill_header in Hd as (ts' & host' & msg' & Hw' & Hd).
  destruct (well_started_unique _ _ _ _ _ _ _ Hw Hw') as (-> & -> & ->).
  apply den_systemd_body_inv in Hd
    as (x1 & x2 & x3 & g3 & w & x4 & e' & R & _ & _ & _ & Hx3 & Lg3 & Hg3 & Nw
        & Hw3 & _ & _ & _).
  simpl in R.
  pose proof (systemd_message_run pre mid slice id [] tail
                x1 x2 x3 g3 w (x4 ++ e') R Hoff Hsl) as Hrun.
  rewrite app_nil_r in Hrun. specialize (Hrun Hid Hx3 Hg3 Hw3).
  apply (f_equal length) in Hrun. rewrite length_app in Hrun.
  destruct w; [done|]. simpl in Hrun. lia.
Qed.


(** ** The lines of the kernel *)

Lemma fixture_line_text :
  Fixture.line
  = lit "1720128512 dev208-uswest1adevc kernel: [ 1579.104425] oom-kill:constraint=CONSTRAINT_MEMCG,nodemask=(null),cpuset=docker-0e2fc4b0dd1dea8dd0a0cfbf2e295c2d1d96c22ff1f5ae4fc9ba4a2d8a1b3a24.scope,mems_allowed=0,oom_memcg=/kubepods.slice/kubepods-burstable.slice/kubepods-burstable-pod0e4e5934_3a62_47cb_8f1a_d6bc1d0a8c63.slice,task_memcg=/kubepods.slice/kubepods-burstable.slice/kubepods-burstable-pod0e4e5934_3a62_47cb_8f1a_d6bc1d0a8c63.slice/docker-0e2fc4b0dd1dea8dd0a0cfbf2e295c2d1d96c22ff1f5ae4fc9ba4a2d8a1b3a24.scope,task=apache2,pid=1234,uid=33"
    ++ [newline].
Proof. vm_compute. reflexivity. Qed.

Lemma fixture_short_line_text :
  Fixture.short_line
  = lit "1720128512 dev208-uswest1adevc kernel: [ 1579.104425] oom-kill:constraint=CONSTRAINT_MEMCG,nodemask=(null),cpuset=docker-0e2fc4b0dd1d.scope,mems_allowed=0,oom_memcg=/kubepods.slice/kubepods-burstable.slice/kubepods-burstable-pod0e4e5934_3a62_47cb_8f1a_d6bc1d0a8c63.slice,task_memcg=/kubepods.slice/kubepods-burstable.slice/kubepods-burstable-pod0e4e5934_3a62_47cb_8f1a_d6bc1d0a8c63.slice/docker-0e2fc4b0dd1d.scope,task=apache2,pid=1234,uid=33"
    ++ [newline].
Proof. vm_compute. reflexivity. Qed.



(** * More of the scanner *)

(** ** What a group holds *)

(** Matching reads a prefix of what is left, and every binding it adds is
    of a group of the expression, with a text the group can read. *)
Lemma den_reads r : forall st st',
  den r st st' ->
  ∃ w extra, rest st = w ++ rest st' ∧ reads r w
    ∧ grps st' = extra ++ grps st
    ∧ Forall (fun p => ∃ r', (p.1, r') ∈ groups_of r ∧ reads r' p.2) extra.
Proof.
  induction r as [| | |c|c|c|m c|r IH|i r IH|r1 IH1 r2 IH2];
    intros st st' H; simpl in H.
  - subst. by exists [], [].
  - destruct H as [_ ->]. by exists [], [].
  - destruct H as [_ ->]. by exists [], [].
  - destruct H as (a & s' & Ha & Hr & ->). exists [a], []. simpl.
    repeat split; eauto.
  - destruct H as (w & s' & Hw & Hr & ->). by exists w, [].
  - destruct H as (w & s' & Hn & Hw & Hr & ->). by exists w, [].
  - destruct H as (w & s' & Hn & Hw & Hr & ->). by exists w, [].
  - destruct H as [H| ->].
    + apply IH in H as (w & extra & Hr & Hw & Hg & Hb).
      exists w, extra. simpl. split; [done|]. split; [by left|]. by split.
    + exists [], []. simpl. split; [done|]. split; [by right|]. by split.
  - destruct H as (st1 & H & ->).
    pose proof (den_effect _ _ _ H) as (w0 & _ & Hr0 & Hp0 & _ & _).
    apply IH in H as (w & extra & Hr & Hw & Hg & Hb).
    assert (w0 = w) as -> by (rewrite Hr in Hr0; by apply app_inv_tail in Hr0).
    exists w, ((i, w) :: extra). simpl. repeat split; try done.
    + by rewrite Hp0, Hr, Hg, take_consumed.
    + constructor.
      * exists r. split; [by left|done].
      * eapply Forall_impl; [exact Hb|]. intros p (r' & Hin & Hrd).
        exists r'. split; [by right|done].
  - destruct H as (st1 & H1 & H2).
    apply IH1 in H1 as (w1 & e1 & Hr1 & Hw1 & Hg1 & Hb1).
    apply IH2 in H2 as (w2 & e2 & Hr2 & Hw2 & Hg2 & Hb2).
    exists (w1 ++ w2), (e2 ++ e1). rewrite Hr1, Hr2, Hg2, Hg1, !app_assoc.
    repeat split; try done; [by exists w1, w2|].
    apply Forall_app. split.
    + eapply Forall_impl; [exact Hb2|]. intros p (r' & Hin & Hrd).
      exists r'. split; [|done]. simpl. apply elem_of_app. by right.
    + eapply Forall_impl; [exact Hb1|]. intros p (r' & Hin & Hrd).
      exists r'. split; [|done]. simpl. apply elem_of_app. by left.
Qed.

Lemma group_elem i (g : list (nat * str)) w :
  group i g = Some w -> (i, w) ∈ g.
Proof.
  unfold group. induction g as [|[j v] g IH]; simpl; [done|].
  destruct (Nat.eqb_spec j i) as [->|Hne]; simpl.
  - intros [= ->]. by left.
  - intros H. right. by apply IH.
Qed.

Lemma group_is_Some_app i (extra g : list (nat * str)) :
  is_Some (group i g) -> is_Some (group i (extra ++ g)).
Proof.
  unfold group. induction extra as [|[j v] extra IH]; intros H; [done|].
  simpl. destruct (Nat.eqb j i); simpl; [by eexists|by apply IH].
Qed.

(** A match sets every group that is not under an option. *)
Lemma den_always_binds r : forall st st' i,
  den r st st' -> i ∈ always_binds r -> is_Some (group i (grps st')).
Proof.
  induction r as [| | |c|c|c|m c|r IH|i r IH|r1 IH1 r2 IH2];
    intros st st' j H Hj; simpl in H, Hj; try by apply elem_of_nil in Hj.
  - destruct H as (st1 & H & ->). simpl. unfold group. simpl.
    destruct (Nat.eqb_spec i j) as [->|Hne]; [by eexists|].
    apply elem_of_cons in Hj as [->|Hj]; [done|].
    apply (IH _ _ _ H Hj).
  - destruct H as (st1 & H1 & H2). apply elem_of_app in Hj as [Hj|Hj].
    + apply den_effect in H2 as (_ & extra & _ & _ & -> & _).
      apply group_is_Some_app. by apply (IH1 _ _ _ H1).
    + by apply (IH2 _ _ _ H2).
Qed.

(** ** The shape of what the scanner yields *)

Lemma fold_digits_nonneg (s : str) : forall acc : Z,
  (0 <= acc)%Z ->
  (0 <= fold_left (fun acc a => 10 * acc + Z.of_nat (digit_value a))%Z s acc)%Z.
Proof.
  induction s as [|a s IH]; intros acc Hacc; simpl; [done|]. apply IH. lia.
Qed.

Lemma int_of_str_nonneg (s : str) : (0 <= int_of_str s)%Z.
Proof. by apply fold_digits_nonneg. Qed.

(** What group 3 encloses in each kill pattern reads an id of the shape. *)
Lemma kill_group_three r r' w :
  r ∈ event_detail_regexes -> (3, r') ∈ groups_of r -> reads r' w -> id_shape w.
Proof.
  unfold event_detail_regexes. rewrite !elem_of_cons, elem_of_nil.
  intros [->|[->|[->|[->|[->|[]]]]]] Hin;
    match type of Hin with
    | _ ∈ ?l => let l' := eval vm_compute in l in change l with l' in Hin
    end;
    rewrite !elem_of_cons, elem_of_nil in Hin;
    destruct Hin as [Hin|[Hin|[Hin|[]]]]; try discriminate Hin;
    injection Hin as ->; simpl.
  - intros (w1 & w2 & -> & [L H] & ->). rewrite app_nil_r. split; [by left|done].
  - intros (w1 & w2 & -> & [L1 H1] & w3 & w4 & -> & Hopt & ->).
    rewrite app_nil_r. destruct Hopt as [(w5 & w6 & -> & [L5 H5] & ->)| ->].
    + rewrite !app_nil_r. split; [right; rewrite length_app; lia|].
      apply Forall_app. by split.
    + rewrite app_nil_r. split; [by left|done].
  - intros (w1 & w2 & -> & [L1 H1] & w3 & w4 & -> & Hopt & ->).
    rewrite app_nil_r. destruct Hopt as [(w5 & w6 & -> & [L5 H5] & ->)| ->].
    + rewrite !app_nil_r. split; [right; rewrite length_app; lia|].
      apply Forall_app. by split.
    + rewrite app_nil_r. split; [by left|done].
  - intros (w1 & w2 & -> & [L H] & ->). rewrite app_nil_r. split; [by left|done].
  - intros (w1 & w2 & -> & [L H] & ->). rewrite app_nil_r. split; [by right|done].
Qed.

Lemma kill_always_three r : r ∈ event_detail_regexes -> 3 ∈ always_binds r.
Proof.
  unfold event_detail_regexes. rewrite !elem_of_cons, elem_of_nil.
  intros [->|[->|[->|[->|[->|[]]]]]];
    match goal with
    | |- _ ∈ ?l => let l' := eval vm_compute in l in change l with l'
    end; set_solver.
Qed.

(** The id a kill pattern captures. *)
Lemma kill_pattern_id r line g :
  r ∈ event_detail_regexes -> search r line = Some g -> id_shape (group_str 3 g).
Proof.
  intros Hr Hs.
  destruct (event_detail_regexes_kill r Hr) as (body & E & _).
  pose proof Hs as Hs'. rewrite E in Hs'.
  apply search_bol_sound in Hs' as (st' & Hd & <-).
  assert (den r (MState 0 line []) st') as Hd'.
  { rewrite E. apply den_cons_bol. by split. }
  pose proof (den_always_binds r _ _ 3 Hd' (kill_always_three r Hr)) as [w Hw].
  unfold group_str. rewrite Hw. simpl. apply group_elem in Hw.
  apply den_reads in Hd' as (_ & extra & _ & _ & Hg & Hall). simpl in Hg.
  rewrite app_nil_r in Hg. rewrite Hg in Hw.
  rewrite Forall_forall in Hall. destruct (Hall _ Hw) as (r' & Hin & Hrd).
  by apply (kill_group_three r r' w).
Qed.

(** The occurrences, less their process names, line by line. *)
Lemma scan_triples process_name (stdin : list str) :
  (fun occ : occurrence => occ.1) <$> scan process_name stdin
  = omap kill_triple (before_eof stdin).
Proof.
  revert process_name. induction stdin as [|l stdin IH]; intros pn; [done|].
  destruct l as [|a l]; [done|].
  rewrite scan_cons by done. cbn [before_eof omap list_omap].
  unfold kill_triple at 1.
  destruct (first_match event_detail_regexes (a :: l)) as [r|]; simpl.
  - f_equal. apply IH.
  - apply IH.
Qed.

Lemma before_eof_elem (stdin : list str) l :
  l ∈ before_eof stdin -> l ∈ stdin ∧ l ≠ [].
Proof.
  induction stdin as [|k stdin IH]; simpl; [by intros H%elem_of_nil|].
  destruct k as [|a k]; [by intros H%elem_of_nil|].
  intros [->|H]%elem_of_cons; [split; [by left|done]|].
  destruct (IH H). split; [by right|done].
Qed.

(** Every occurrence is made of the match of a line of the input. *)
Lemma scan_elem_match process_name (stdin : list str) occ :
  occ ∈ scan process_name stdin ->
  ∃ k r g, k ∈ stdin ∧ k ≠ [] ∧ r ∈ event_detail_regexes
           ∧ search r k = Some g
           ∧ occ.1 = (int_of_str (group_str 1 g), group_str 2 g, group_str 3 g).
Proof.
  intros H.
  assert (occ.1 ∈ (fun occ : occurrence => occ.1) <$> scan process_name stdin)
    as H1 by (apply list_elem_of_fmap; by exists occ).
  rewrite scan_triples in H1. apply list_elem_of_omap in H1 as (k & Hk & Ht).
  apply before_eof_elem in Hk as [Hk Hne]. unfold kill_triple in Ht.
  destruct (first_match event_detail_regexes k) as [g|] eqn:Hm; [|done].
  simpl in Ht. injection Ht as Ht.
  apply first_match_some in Hm as (r & Hr & Hs).
  exists k, r, g. by rewrite <- Ht.
Qed.

(** The shape of an occurrence, whatever the slot was at the start. *)
Lemma scan_shape process_name (stdin : list str) (occ : occurrence) :
  occ ∈ scan process_name stdin ->
  (0 <= occ.1.1.1)%Z
  ∧ occ_hostname occ ≠ []
  ∧ Forall (fun a => in_cls host_set a = true) (occ_hostname occ)
  ∧ id_shape (occ_container_id occ).
Proof.
  intros H. apply scan_elem_match in H as (k & r & g & _ & _ & Hr & Hs & E).
  destruct occ as [[[t h] c] pn]. simpl in E. injection E as -> -> ->.
  unfold occ_hostname, occ_container_id. simpl.
  split; [apply int_of_str_nonneg|].
  destruct (kill_pattern_match r k g (event_detail_regexes_kill r Hr) Hs)
    as (ts & host & msg & (sp1 & sp2 & _ & _ & _ & _ & Hh & Hhc & _) & _ & ->).
  split; [done|]. split; [done|]. by apply (kill_pattern_id r k).
Qed.

(** X1. Every occurrence the scanner yields has a timestamp that is not
    negative, a hostname of one or more characters of [[a-zA-Z0-9-]], and
    a container id of twelve or of sixty-four word characters, whichever
    of the five patterns matched its line. *)
Theorem occurrence_shape (stdin : list str) (occ : occurrence) :
  occ ∈ capture_oom_events_from_stdin stdin ->
  (0 <= occ.1.1.1)%Z
  ∧ occ_hostname occ ≠ []
  ∧ Forall (fun a => in_cls host_set a = true) (occ_hostname occ)
  ∧ id_shape (occ_container_id occ).
Proof.
  intros H. unfold capture_oom_events_from_stdin in H.
  apply scan_elem_match in H as (k & r & g & _ & _ & Hr & Hs & E).
  destruct occ as [[[t h] c] pn]. simpl in E. injection E as -> -> ->.
  unfold occ_hostname, occ_container_id. simpl.
  split; [apply int_of_str_nonneg|].
  destruct (kill_pattern_match r k g (event_detail_regexes_kill r Hr) Hs)
    as (ts & host & msg & (sp1 & sp2 & _ & _ & _ & _ & Hh & Hhc & _) & _ & ->).
  split; [done|]. split; [done|]. by apply (kill_pattern_id r k).
Qed.

Lemma occurrence_shape_witness :
  (0 <= first_occurrence.1.1.1)%Z
  ∧ occ_hostname first_occurrence ≠ []
  ∧ Forall (fun a => in_cls host_set a = true) (occ_hostname first_occurrence)
  ∧ id_shape (occ_container_id first_occurrence).
Proof.
  apply (occurrence_shape [first_kill_line; second_kill_line]).
  vm_compute. left.
Defined.


(** X3. Lines that neither the process-name pattern nor a kill pattern
    matches change nothing: with such lines left out of the input the
    scanner yields the same occurrences, process names included. *)
Theorem quiet_lines_change_nothing process_name (pre mid post : list str) :
  Forall (fun l => l ≠ []) pre -> Forall quiet mid ->
  scan process_name (pre ++ mid ++ post) = scan process_name (pre ++ post).
Proof.
  intros Hpre Hmid.
  rewrite (scan_app _ pre (mid ++ post)), (scan_app _ pre post) by done.
  f_equal.
  rewrite scan_app by (eapply Forall_impl; [exact Hmid|]; by intros l [? _]).
  by destruct (slot_after_quiet (slot_after process_name pre) mid Hmid) as [-> ->].
Qed.

Lemma quiet_lines_change_nothing_witness :
  scan [] ([name_line_host_a] ++ [other_line] ++ [kill_line_host_b])
  = scan [] ([name_line_host_a] ++ [kill_line_host_b]).
Proof.
  apply quiet_lines_change_nothing.
  - by repeat constructor.
  - repeat constructor; vm_compute; done.
Defined.

(** ** The timestamp, read and printed *)









(** ** The classic layout *)








(** ** The matcher, element by element *)

Lemma search_bol_match_at l line :
  search (cat (Bol :: l)) line = match_at (cat (Bol :: l)) 0 line.
Proof.
  unfold search. rewrite search_from_unfold.
  destruct (match_at (cat (Bol :: l)) 0 line); [done|].
  destruct line; [done|]. by rewrite search_from_bol_later.
Qed.

Section Prefix.
Context {R : Type}.
Implicit Types (k : mstate -> option R).

(** What the matcher returns for a sequence went through a way to match
    its first part, and is what the matcher returns for the rest from
    there. *)
Lemma run_sound_prefix l1 l2 : forall st k res,
  run (cat (l1 ++ l2)) st k = Some res ->
  ∃ st1, den (cat l1) st st1 ∧ run (cat l2) st1 k = Some res.
Proof.
  induction l1 as [|r l1 IH]; intros st k res H.
  - by exists st.
  - change (run r st (fun st' => run (cat (l1 ++ l2)) st' k) = Some res) in H.
    apply run_sound in H as (st' & Hd & H).
    apply IH in H as (st1 & Hd1 & H). exists st1. split; [|done].
    apply den_cat_cons. by exists st'.
Qed.

End Prefix.

(** ** The cgroup of a pod *)








(** ** The kubernetes layout with cgroupfs *)




Lemma space_not_word a : is_space a = true -> is_word a = false.
Proof. by_cases_on_ascii a. Qed.








(** A pattern that names a text matches no line without it. *)
Lemma search_needs_marker (m : string) (l1 l2 : list regex) line :
  offsets (lit m) line = [] ->
  search (cat (Bol :: l1 ++ chars m ++ l2)) line = None.
Proof.
  intros Hoff. apply search_bol_none. intros st' Hd.
  apply den_cat_app in Hd as (st1 & Hd1 & Hd2).
  apply den_effect in Hd1 as (w & _ & R1 & _). simpl in R1.
  apply den_chars in Hd2 as (s' & R2 & _).
  pose proof (offsets_complete (lit m) w s') as Hin.
  rewrite <- R2, <- R1, Hoff in Hin. by apply elem_of_nil in Hin.
Qed.




(** ** The structured kernel message of kubernetes *)







Lemma docker_needs_task line :
  offsets task_marker line = [] -> search oom_regex_docker line = None.
Proof.
  apply (search_needs_marker "Task" (kill_header ++ [Star CDot])
           (chars " in /docker/" ++ [Grp 3 (cat [Rep 12 CWord]); Plus CWord]
            ++ chars " killed as a")).
Qed.

Lemma kubernetes_needs_task line :
  offsets task_marker line = [] -> search oom_regex_kubernetes line = None.
Proof.
  apply (search_needs_marker "Task" (kill_header ++ [Star CDot])
           (Cls CSpace :: (chars "in" ++ Cls CSpace
            :: (chars "/kubepods/" ++ kube_path ++ id_group :: kubepods_tail)))).
Qed.



(** ** The systemd layout with containerd *)





Lemma structured_needs_memcg line :
  offsets kubepods_memcg line = [] ->
  search oom_regex_kubernetes_structured line = None.
Proof.
  apply (search_needs_marker "task_memcg=/kubepods"
           (kill_header ++ Star CDot :: (chars "oom-kill:" ++ [Star CDot]))
           (chars "/" ++ kube_path ++ id_group :: structured_tail)).
Qed.

Lemma systemd_needs_memcg line :
  offsets kubepods_memcg line = [] ->
  search oom_regex_kubernetes_systemd_cgroup line = None.
Proof.
  apply (search_needs_marker "task_memcg=/kubepods"
           (kill_header ++ Star CDot :: (chars "oom-kill:" ++ [Star CDot]))
           (chars ".slice/" ++ Plus not_comma
            :: (chars "docker-" ++ Grp 3 (cat [Rep 12 CWord]) :: Plus CWord
            :: (chars ".scope," ++ [Star CDot; Eol])))).
Qed.



(** ** The environment of a container *)

Lemma get_env_of_config is_cri_containerd container_inspect cfg :
  has_config is_cri_containerd container_inspect cfg ->
  get_container_env_as_dict is_cri_containerd container_inspect
  = (items ← py_iter (default (PList [])
                        (dict_find (env_key is_cri_containerd) cfg));
     fill_env items ∅).
Proof.
  intros (items & -> & Hc).
  assert (forall k d, py_get (PDict items) k d
                      = Returns (default d (dict_find k items)))
    as Hget by reflexivity.
  destruct is_cri_containerd; unfold config_key in Hc;
    unfold get_container_env_as_dict, env_key; cbv iota;
    rewrite Hget, Hc; reflexivity.
Qed.

(** The loop over entries that are strings. *)
Lemma fill_env_strings (entries : list str) : forall env_vars,
  fill_env (PStr <$> entries) env_vars
  = Returns (foldl (fun m e => <[(partition_eq e).1 := (partition_eq e).2]> m)
               env_vars entries).
Proof.
  induction entries as [|e entries IH]; intros m; [done|].
  simpl. destruct (partition_eq e) as [name value] eqn:E. simpl. apply IH.
Qed.

Lemma partition_eq_assign (name value : str) :
  "="%char ∉ name -> partition_eq (name ++ "="%char :: value) = (name, value).
Proof.
  induction name as [|a name IH]; intros H; [done|].
  simpl. destruct (Ascii.eqb_spec a "=") as [->|_]; [set_solver|].
  rewrite IH; [done|set_solver].
Qed.

Lemma partition_eq_name (e : str) : assigns (partition_eq e).1 e.
Proof.
  induction e as [|a e IH]; [by left|].
  simpl. destruct (Ascii.eqb_spec a "=") as [->|_].
  - right. by exists e.
  - destruct (partition_eq e) as [name value]. simpl in *.
    destruct IH as [->|(v & ->)]; [by left|right; by exists v].
Qed.

Lemma fold_env_other (name : str) (entries : list str) :
  forall env_vars : gmap str str,
  Forall (fun e => ¬ assigns name e) entries ->
  foldl (fun m e => <[(partition_eq e).1 := (partition_eq e).2]> m)
    env_vars entries !! name
  = env_vars !! name.
Proof.
  induction entries as [|e entries IH]; intros m H; [done|].
  inversion H as [|? ? He H']; subst. simpl. rewrite IH by done.
  apply lookup_insert_ne. intros <-. apply He, partition_eq_name.
Qed.

(** X9. For a container whose config section holds a list of strings as
    its environment, the function returns a map in which a variable has
    the value of the last entry that assigns it, the value being what
    follows the first [=] of the entry, and in which a variable that no
    entry assigns is absent. *)
Theorem env_last_assignment_wins (is_cri_containerd : bool)
    (container_inspect : pyval) (cfg : list (str * pyval))
    (entries : list str) :
  has_config is_cri_containerd container_inspect cfg ->
  dict_find (env_key is_cri_containerd) cfg = Some (PList (PStr <$> entries)) ->
  ∃ env_vars,
    get_container_env_as_dict is_cri_containerd container_inspect
    = Returns env_vars
    ∧ forall name, "="%char ∉ name ->
        (forall pre value post,
            entries = pre ++ (name ++ "="%char :: value) :: post ->
            Forall (fun e => ¬ assigns name e) post ->
            env_vars !! name = Some value)
        ∧ (Forall (fun e => ¬ assigns name e) entries ->
           env_vars !! name = None).
Proof.
  intros Hc He. rewrite (get_env_of_config _ _ cfg Hc), He. simpl.
  rewrite fill_env_strings. eexists. split; [reflexivity|].
  intros name Hname. split.
  - intros pre value post -> Hpost.
    rewrite foldl_app. simpl. rewrite fold_env_other by done.
    rewrite partition_eq_assign by done. simpl. apply lookup_insert_eq.
  - intros Hall. by rewrite fold_env_other.
Qed.

Lemma env_last_assignment_wins_witness :
  ∃ env_vars,
    get_container_env_as_dict true inspected_twice = Returns env_vars
    ∧ env_vars !! lit "A" = Some (lit "2")
    ∧ env_vars !! lit "B" = Some (lit "x=y")
    ∧ env_vars !! lit "C" = None.
Proof.
  destruct (env_last_assignment_wins true inspected_twice
              [(lit "env", PList [PStr (lit "A=1"); PStr (lit "B=x=y");
                                  PStr (lit "A=2")])]
              [lit "A=1"; lit "B=x=y"; lit "A=2"])
    as (env_vars & Hr & H).
  - eexists. split; reflexivity.
  - reflexivity.
  - exists env_vars. split; [exact Hr|].
    destruct (H (lit "A")) as [HA _]; [by apply (bool_decide_unpack _)|].
    destruct (H (lit "B")) as [HB _]; [by apply (bool_decide_unpack _)|].
    destruct (H (lit "C")) as [_ HC]; [by apply (bool_decide_unpack _)|].
    split; [|split].
    + apply (HA [lit "A=1"; lit "B=x=y"] (lit "2") []); [done|constructor].
    + apply (HB [lit "A=1"] (lit "x=y") [lit "A=2"]); [done|].
      repeat constructor. intros [E|(v & E)]; discriminate E.
    + apply HC. repeat constructor; intros [E|(v & E)]; discriminate E.
Defined.

(** X10. With the config section present, an environment that is missing
    gives the empty map, an environment that is null raises [TypeError],
    and an entry that is not a string raises [AttributeError], the
    entries before it being strings. *)
Theorem env_edge_cases (is_cri_containerd : bool)
    (container_inspect : pyval) (cfg : list (str * pyval)) :
  has_config is_cri_containerd container_inspect cfg ->
  (dict_find (env_key is_cri_containerd) cfg = None ->
   get_container_env_as_dict is_cri_containerd container_inspect = Returns ∅)
  ∧ (dict_find (env_key is_cri_containerd) cfg = Some PNone ->
     get_container_env_as_dict is_cri_containerd container_inspect
     = Raises TypeError)
  ∧ (forall (pre : list str) (v : pyval) (post : list pyval),
       dict_find (env_key is_cri_containerd) cfg
       = Some (PList ((PStr <$> pre) ++ v :: post)) ->
       (forall s, v ≠ PStr s) ->
       get_container_env_as_dict is_cri_containerd container_inspect
       = Raises AttributeError).
Proof.
  intros Hc. rewrite (get_env_of_config _ _ cfg Hc). split; [|split].
  - by intros ->.
  - by intros ->.
  - intros pre v post -> Hv. simpl. generalize (∅ : gmap str str).
    induction pre as [|e pre IH]; intros m; simpl.
    + destruct v; try done. by destruct (Hv s).
    + destruct (partition_eq e). simpl. apply IH.
Qed.

Lemma env_edge_cases_witness :
  get_container_env_as_dict false inspected_without_env = Returns ∅
  ∧ get_container_env_as_dict false inspected_null_env = Raises TypeError
  ∧ get_container_env_as_dict false inspected_number = Raises AttributeError.
Proof.
  split; [|split].
  - apply (proj1 (env_edge_cases false inspected_without_env []
                    ltac:(eexists; split; reflexivity))).
    reflexivity.
  - apply (proj1 (proj2 (env_edge_cases false inspected_null_env
                           [(lit "Env", PNone)]
                           ltac:(eexists; split; reflexivity)))).
    reflexivity.
  - apply (proj2 (proj2 (env_edge_cases false inspected_number
                           [(lit "Env", PList [PStr (lit "A=1"); PInt 3])]
                           ltac:(eexists; split; reflexivity)))
             [lit "A=1"] (PInt 3) []); [reflexivity|done].
Defined.

(** ** The calls of [main] *)

Section Traces.
Context {W : Type}.
Variable respond : forall c : call, W -> outcome (reply c) * W.
Variable json_loads : list N -> outcome pyval.
Variable DEFAULT_LOGLEVEL : str.
Variable yelp_meteorite_imported : bool.

Local Abbreviation dispatch :=
  (dispatch respond DEFAULT_LOGLEVEL yelp_meteorite_imported).
Local Abbreviation send_sfx_event :=
  (send_sfx_event respond yelp_meteorite_imported).
Local Abbreviation inspect := (inspect respond json_loads).
Local Abbreviation iteration :=
  (iteration respond json_loads DEFAULT_LOGLEVEL yelp_meteorite_imported).
Local Abbreviation main_loop :=
  (main_loop respond json_loads DEFAULT_LOGLEVEL yelp_meteorite_imported).
Local Abbreviation sink_of := (sink_of DEFAULT_LOGLEVEL yelp_meteorite_imported).

Lemma perform_calls (c : call) (s : run_state) :
  calls (perform respond c s).2 = calls s ++ [c].
Proof. unfold perform. by destruct (respond c (world s)). Qed.

(** The calls of the sinks for a record. *)
Lemma dispatch_calls (log_line : LogLine) (s : run_state) :
  ∃ new, calls (dispatch log_line s).2 = calls s ++ new
         ∧ Forall (sink_of log_line) new.
Proof.
  unfold dispatch, log_to_clog, log_to_paasta, mbind, M_bind.
  fold (clog_call log_line). fold (paasta_call DEFAULT_LOGLEVEL log_line).
  assert (Forall (sink_of log_line)
            [clog_call log_line; paasta_call DEFAULT_LOGLEVEL log_line]) as Hlog.
  { apply Forall_cons. split; [by left|].
    apply Forall_cons. split; [right; by left|constructor]. }
  pose proof (perform_calls (clog_call log_line) s) as H1.
  destruct (perform respond (clog_call log_line) s) as [[[]|e1] s1];
    simpl in H1.
  2:{ exists [clog_call log_line]. split; [done|].
      apply (Forall_take _ 1) in Hlog. exact Hlog. }
  pose proof (perform_calls (paasta_call DEFAULT_LOGLEVEL log_line) s1) as H2.
  destruct (perform respond (paasta_call DEFAULT_LOGLEVEL log_line) s1)
    as [[[]|e2] s2]; simpl in H2; rewrite H1, <- app_assoc in H2.
  2:{ by exists [clog_call log_line; paasta_call DEFAULT_LOGLEVEL log_line]. }
  unfold send_sfx_event.
  destruct yelp_meteorite_imported eqn:Hy.
  2:{ by exists [clog_call log_line; paasta_call DEFAULT_LOGLEVEL log_line]. }
  unfold mbind, M_bind.
  set (get_pool := GetPool (service log_line) (instance log_line)
                     (cluster log_line)).
  pose proof (perform_calls get_pool s2) as H3.
  destruct (perform respond get_pool s2) as [[pool|e3] s3]; simpl in H3;
    rewrite H2, <- app_assoc in H3.
  2:{ exists [clog_call log_line; paasta_call DEFAULT_LOGLEVEL log_line;
              get_pool].
      split; [done|]. apply (Forall_app _ [_; _] [_]). split; [done|].
      apply Forall_singleton. right. right. split; [done|].
      exists []. by left. }
  set (dimensions := sfx_dimensions (service log_line) (instance log_line)
                       (cluster log_line) pool).
  set (emit := EmitEvent (lit "paasta.service.oom_events") dimensions).
  set (count := CounterCount (lit "paasta.service.oom_count") dimensions).
  assert (Forall (sink_of log_line)
            [clog_call log_line; paasta_call DEFAULT_LOGLEVEL log_line;
             get_pool; emit; count]) as Hall.
  { rewrite Hy. apply (Forall_app _ [_; _] [_; _; _]). split; [done|].
    apply Forall_forall. intros c Hc. right. right. split; [done|].
    exists pool. exact Hc. }
  rewrite Hy in Hall.
  pose proof (perform_calls emit s3) as H4.
  destruct (perform respond emit s3) as [[[]|e4] s4]; simpl in H4;
    rewrite H3, <- app_assoc in H4.
  2:{ exists [clog_call log_line; paasta_call DEFAULT_LOGLEVEL log_line;
              get_pool; emit].
      split; [done|]. apply (Forall_take _ 4) in Hall. exact Hall. }
  pose proof (perform_calls count s4) as H5. rewrite H4, <- app_assoc in H5.
  by exists [clog_call log_line; paasta_call DEFAULT_LOGLEVEL log_line;
             get_pool; emit; count].
Qed.

Local Abbreviation follows :=
  (follows DEFAULT_LOGLEVEL yelp_meteorite_imported).
Local Abbreviation loop_trace :=
  (loop_trace DEFAULT_LOGLEVEL yelp_meteorite_imported).

(** The calls of the lookup. *)
Lemma inspect_calls (containerd : bool) (container_id : str) (s : run_state) :
  ∃ new, calls (inspect containerd container_id s).2
         = calls s ++ lookup_call containerd container_id :: new
         ∧ Forall (fun c => c = lookup_failed ∧ containerd = true) new.
Proof.
  unfold inspect, lookup_call. destruct containerd.
  - unfold try_except, mbind, M_bind.
    pose proof (perform_calls (ContainerdGet container_id) s) as H1.
    destruct (perform respond (ContainerdGet container_id) s)
      as [[value|e] s1]; simpl in H1.
    + exists []. split; [|done]. unfold mret, M_ret, lift.
      destruct (decode_utf8 value) as [text|e]; [|done].
      by destruct (json_loads text).
    + destruct e; try by exists [].
      exists [lookup_failed]. split; [|by repeat constructor].
      unfold print. simpl. by rewrite H1, <- app_assoc.
  - unfold try_except, mbind, M_bind.
    pose proof (perform_calls (InspectContainer container_id) s) as H1.
    destruct (perform respond (InspectContainer container_id) s)
      as [[value|e] s1]; simpl in H1.
    + by exists [].
    + by destruct e; exists [].
Qed.

(** The calls of one iteration. *)
Lemma iteration_calls (containerd : bool) (cluster : str) (occ : occurrence)
    (s : run_state) :
  ∃ rest, calls (iteration containerd cluster occ s).2
          = calls s ++ lookup_call containerd (occ_container_id occ) :: rest
          ∧ Forall (follows containerd cluster occ) rest.
Proof.
  destruct occ as [[[t h] c] p].
  change (occ_container_id (t, h, c, p)) with c.
  unfold iteration. cbv beta iota. unfold mbind, M_bind.
  destruct (inspect_calls containerd c s) as (new & H1 & Hnew).
  destruct (inspect containerd c s) as [[[container_inspect|]|e] s1];
    simpl in H1.
  - unfold lift.
    destruct (get_container_env_as_dict containerd container_inspect)
      as [env_vars|e].
    + destruct (dispatch_calls (make_log_line cluster (t, h, c, p) env_vars) s1)
        as (new' & H2 & Hnew').
      exists (new ++ new'). split.
      * by rewrite H2, H1, <- app_assoc.
      * apply Forall_app. split.
        -- eapply Forall_impl; [exact Hnew|]. intros x Hx. by left.
        -- eapply Forall_impl; [exact Hnew'|]. intros x Hx. right.
           by exists env_vars.
    + exists new. split; [done|].
      eapply Forall_impl; [exact Hnew|]. intros x Hx. by left.
  - exists new. split; [done|].
    eapply Forall_impl; [exact Hnew|]. intros x Hx. by left.
  - exists new. split; [done|].
    eapply Forall_impl; [exact Hnew|]. intros x Hx. by left.
Qed.

(** The calls of the loop: those of an initial part of the occurrences,
    and of all of them when the loop returns. *)
Lemma main_loop_calls (containerd : bool) (cluster : str)
    (occs : list occurrence) : forall s : run_state,
  ∃ done new,
    done `prefix_of` occs
    ∧ ((main_loop containerd cluster occs s).1 = Returns tt -> done = occs)
    ∧ calls (main_loop containerd cluster occs s).2 = calls s ++ new
    ∧ loop_trace containerd cluster done new.
Proof.
  induction occs as [|occ occs IH]; intros s.
  - exists [], []. split; [done|]. split; [done|].
    split; [by rewrite app_nil_r|constructor].
  - simpl. unfold mbind, M_bind.
    destruct (iteration_calls containerd cluster occ s) as (rest & H1 & Hrest).
    destruct (iteration containerd cluster occ s) as [[[]|e] s1]; simpl in H1.
    + destruct (IH s1) as (done & new & Hp & Hr & H2 & Ht).
      exists (occ :: done),
        (lookup_call containerd (occ_container_id occ) :: rest ++ new).
      split; [by apply prefix_cons|]. split; [intros H; by rewrite Hr|].
      split; [|by constructor].
      by rewrite H2, H1, <- app_assoc.
    + exists [occ], (lookup_call containerd (occ_container_id occ) :: rest ++ []).
      split; [apply prefix_cons, prefix_nil|]. split; [done|].
      split; [by rewrite app_nil_r|].
      constructor; [done|constructor].
Qed.
End Traces.

Lemma follows_no_lookup lvl yelp containerd cluster occ c :
  follows lvl yelp containerd cluster occ c -> lookup_id c = None.
Proof.
  intros [[-> _]|(env_vars & [->|[->|(_ & pool & H)]])]; try done.
  unfold metrics_calls in H. cbv zeta in H.
  rewrite !elem_of_cons, elem_of_nil in H.
  by destruct H as [->|[->|[->|[]]]].
Qed.

Lemma follows_allowed lvl yelp containerd cluster occ c :
  follows lvl yelp containerd cluster occ c -> allowed true yelp containerd c.
Proof.
  intros [[-> H]|(env_vars & [->|[->|(Hy & pool & H)]])]; try done.
  unfold metrics_calls in H. cbv zeta in H.
  rewrite !elem_of_cons, elem_of_nil in H.
  by destruct H as [->|[->|[->|[]]]].
Qed.

Lemma omap_lookup_none (new : list call) :
  Forall (fun c => lookup_id c = None) new -> omap lookup_id new = [].
Proof.
  induction new as [|c new IH]; intros H; [done|].
  inversion H as [|? ? Hc H']; subst. simpl. rewrite Hc. by apply IH.
Qed.

(** The lookups of the loop are those of its occurrences, in order. *)
Lemma loop_trace_lookups lvl yelp containerd cluster done new :
  loop_trace lvl yelp containerd cluster done new ->
  omap lookup_id new = occ_container_id <$> done.
Proof.
  induction 1 as [|occ occs rest new Hrest _ IH]; [done|].
  change (omap lookup_id
            ([lookup_call containerd (occ_container_id occ)] ++ rest ++ new)
          = occ_container_id occ :: (occ_container_id <$> occs)).
  rewrite !omap_app, IH, (omap_lookup_none rest).
  - by destruct containerd.
  - eapply Forall_impl; [exact Hrest|]. intros c. apply follows_no_lookup.
Qed.

Lemma loop_trace_allowed lvl yelp containerd cluster done new :
  loop_trace lvl yelp containerd cluster done new ->
  Forall (allowed true yelp containerd) new.
Proof.
  induction 1 as [|occ occs rest new Hrest _ IH]; [constructor|].
  constructor; [by destruct containerd|]. apply Forall_app. split; [|done].
  eapply Forall_impl; [exact Hrest|]. intros c. apply follows_allowed.
Qed.

(** Every call of the loop after a lookup is of an occurrence. *)
Lemma loop_trace_sinks lvl yelp containerd cluster done new c :
  loop_trace lvl yelp containerd cluster done new ->
  c ∈ new -> is_sink_call c = true ->
  ∃ occ env_vars, occ ∈ done
                  ∧ sink_of lvl yelp (make_log_line cluster occ env_vars) c.
Proof.
  induction 1 as [|occ occs rest new Hrest _ IH]; intros Hc Hs.
  - by apply elem_of_nil in Hc.
  - apply elem_of_cons in Hc as [->|Hc]; [by destruct containerd|].
    apply elem_of_app in Hc as [Hc|Hc].
    + rewrite Forall_forall in Hrest.
      destruct (Hrest c Hc) as [[-> _]|(env_vars & H)]; [done|].
      exists occ, env_vars. split; [by left|done].
    + destruct (IH Hc Hs) as (occ' & env_vars & Hin & H).
      exists occ', env_vars. split; [by right|done].
Qed.

(** The calls of [main] from the start. *)
Lemma main_calls {W : Type}
    (respond : forall c : call, W -> outcome (reply c) * W)
    (json_loads : list N -> outcome pyval) (DEFAULT_LOGLEVEL : str)
    (clog_imported yelp_meteorite_imported containerd : bool)
    (stdin : list str) (w : W) :
  let r := main respond json_loads DEFAULT_LOGLEVEL clog_imported
             yelp_meteorite_imported containerd stdin (RunState w []) in
  (clog_imported = false
   ∧ r = (Raises (SystemExit 1), RunState w [clog_missing]))
  ∨ (clog_imported = true
     ∧ ∃ startup cluster done new,
         startup `prefix_of` startup_calls
         ∧ calls r.2 = startup ++ new
         ∧ loop_trace DEFAULT_LOGLEVEL yelp_meteorite_imported containerd
             cluster done new
         ∧ done `prefix_of` capture_oom_events_from_stdin stdin
         ∧ (r.1 = Returns tt -> done = capture_oom_events_from_stdin stdin)
         ∧ (done ≠ [] -> startup_cluster respond w cluster)).
Proof.
  intros r. subst r. unfold main. destruct clog_imported; [right|by left].
  split; [done|]. unfold mbind, M_bind, perform. simpl.
  destruct (respond ClogConfigure w) as [[[]|e1] w1] eqn:E1.
  2:{ exists [ClogConfigure], [], [], []. simpl.
      split; [by exists [GetCluster; GetDockerClient]|].
      split; [done|]. split; [constructor|]. split; [apply prefix_nil|done]. }
  simpl. destruct (respond GetCluster w1) as [[cluster|e2] w2] eqn:E2.
  2:{ exists [ClogConfigure; GetCluster], [], [], []. simpl.
      split; [by exists [GetDockerClient]|].
      split; [done|]. split; [constructor|]. split; [apply prefix_nil|done]. }
  simpl. destruct (respond GetDockerClient w2) as [[[]|e3] w3] eqn:E3.
  2:{ exists startup_calls, [], [], []. simpl.
      split; [done|]. split; [done|]. split; [constructor|].
      split; [apply prefix_nil|done]. }
  simpl.
  destruct (main_loop_calls respond json_loads DEFAULT_LOGLEVEL
              yelp_meteorite_imported containerd cluster
              (capture_oom_events_from_stdin stdin)
              (RunState w3 [ClogConfigure; GetCluster; GetDockerClient]))
    as (done & new & Hp & Hr & Hc & Ht).
  exists startup_calls, cluster, done, new.
  split; [done|]. split; [exact Hc|]. split; [done|]. split; [done|].
  split; [done|]. intros _. by exists w1, w2.
Qed.

Lemma startup_prefix_elem (startup : list call) c :
  startup `prefix_of` startup_calls -> c ∈ startup ->
  c = ClogConfigure ∨ c = GetCluster ∨ c = GetDockerClient.
Proof.
  intros [k Hk] Hin.
  assert (c ∈ startup_calls) as Hin'
    by (rewrite Hk; apply elem_of_app; by left).
  unfold startup_calls in Hin'. rewrite !elem_of_cons, elem_of_nil in Hin'.
  tauto.
Qed.

(** X11. [main] looks up the containers of the occurrences in the order
    of their lines, one lookup for each and no other lookup: all of them
    when it returns, an initial part when it ends with an exception; and
    every id it looks up has twelve or sixty-four word characters. *)
Theorem lookups_in_order {W : Type}
    (respond : forall c : call, W -> outcome (reply c) * W)
    (json_loads : list N -> outcome pyval) (DEFAULT_LOGLEVEL : str)
    (clog_imported yelp_meteorite_imported containerd : bool)
    (stdin : list str) (w : W) :
  let r := main respond json_loads DEFAULT_LOGLEVEL clog_imported
             yelp_meteorite_imported containerd stdin (RunState w []) in
  let ids := omap lookup_id (calls r.2) in
  let wanted := occ_container_id <$> capture_oom_events_from_stdin stdin in
  ids `prefix_of` wanted
  ∧ (r.1 = Returns tt -> ids = wanted)
  ∧ Forall id_shape ids.
Proof.
  intros r ids wanted.
  destruct (main_calls respond json_loads DEFAULT_LOGLEVEL clog_imported
              yelp_meteorite_imported containerd stdin w)
    as [[_ E]|(_ & startup & cluster & done & new & Hs & Hc & Ht & Hp & Hr & _)];
    fold r in E || fold r in Hc, Hr.
  - subst ids. rewrite E. simpl. split; [apply prefix_nil|]. split; [done|].
    constructor.
  - assert (ids = occ_container_id <$> done) as ->.
    { subst ids. rewrite Hc, omap_app, (loop_trace_lookups _ _ _ _ _ _ Ht).
      rewrite omap_lookup_none; [done|].
      apply Forall_forall. intros c Hin.
      by destruct (startup_prefix_elem _ _ Hs Hin) as [->|[->| ->]]. }
    split; [|split].
    + destruct Hp as [k Hk]. exists (occ_container_id <$> k).
      subst wanted. by rewrite Hk, fmap_app.
    + intros H. by rewrite (Hr H).
    + apply Forall_fmap, Forall_forall. intros occ Hocc. simpl.
      apply (scan_shape [] stdin occ). destruct Hp as [k Hk].
      unfold capture_oom_events_from_stdin in Hk. rewrite Hk.
      apply elem_of_app. by left.
Qed.

(** X12. What [main] calls follows what was imported and
    [args.containerd]: without [clog] it prints its message on standard
    error and calls nothing else; it never looks a container up with the
    engine that is not in use; it calls the metrics library only when
    [yelp_meteorite] was imported. *)
Theorem calls_follow_configuration {W : Type}
    (respond : forall c : call, W -> outcome (reply c) * W)
    (json_loads : list N -> outcome pyval) (DEFAULT_LOGLEVEL : str)
    (clog_imported yelp_meteorite_imported containerd : bool)
    (stdin : list str) (w : W) :
  let r := main respond json_loads DEFAULT_LOGLEVEL clog_imported
             yelp_meteorite_imported containerd stdin (RunState w []) in
  Forall (allowed clog_imported yelp_meteorite_imported containerd)
    (calls r.2).
Proof.
  intros r.
  destruct (main_calls respond json_loads DEFAULT_LOGLEVEL clog_imported
              yelp_meteorite_imported containerd stdin w)
    as [[-> E]|(-> & startup & cluster & done & new & Hs & Hc & Ht & _)];
    fold r in E || fold r in Hc.
  - rewrite E. by repeat constructor.
  - rewrite Hc. apply Forall_app. split.
    + apply Forall_forall. intros c Hin.
      by destruct (startup_prefix_elem _ _ Hs Hin) as [->|[->| ->]].
    + by apply (loop_trace_allowed DEFAULT_LOGLEVEL _ _ cluster done).
Qed.

(** X13. Whatever [main] sends to a sink is of a record made from an
    occurrence of the input, with the timestamp, hostname, container id
    and process name of the occurrence, and with the cluster obtained at
    startup. *)
Theorem records_are_of_occurrences {W : Type}
    (respond : forall c : call, W -> outcome (reply c) * W)
    (json_loads : list N -> outcome pyval) (DEFAULT_LOGLEVEL : str)
    (clog_imported yelp_meteorite_imported containerd : bool)
    (stdin : list str) (w : W) (c : call) :
  let r := main respond json_loads DEFAULT_LOGLEVEL clog_imported
             yelp_meteorite_imported containerd stdin (RunState w []) in
  c ∈ calls r.2 -> is_sink_call c = true ->
  ∃ occ env_vars cluster,
    occ ∈ capture_oom_events_from_stdin stdin
    ∧ startup_cluster respond w cluster
    ∧ sink_of DEFAULT_LOGLEVEL yelp_meteorite_imported
        (make_log_line cluster occ env_vars) c.
Proof.
  intros r Hin Hsink.
  destruct (main_calls respond json_loads DEFAULT_LOGLEVEL clog_imported
              yelp_meteorite_imported containerd stdin w)
    as [[_ E]|(_ & startup & cluster & done & new & Hs & Hc & Ht & Hp & _ & Hcl)];
    fold r in E || fold r in Hc.
  - rewrite E in Hin. simpl in Hin. apply list_elem_of_singleton in Hin.
    by subst c.
  - rewrite Hc in Hin. apply elem_of_app in Hin as [Hin|Hin].
    + by destruct (startup_prefix_elem _ _ Hs Hin) as [->|[->| ->]].
    + destruct (loop_trace_sinks _ _ _ _ _ _ _ Ht Hin Hsink)
        as (occ & env_vars & Hocc & H).
      exists occ, env_vars, cluster. split; [|split; [|done]].
      * destruct Hp as [k Hk]. rewrite Hk. apply elem_of_app. by left.
      * apply Hcl. intros ->. by apply elem_of_nil in Hocc.
Qed.

Lemma records_are_of_occurrences_witness :
  ∃ occ env_vars cluster,
    occ ∈ capture_oom_events_from_stdin [first_kill_line]
    ∧ startup_cluster plain_world () cluster
    ∧ sink_of level_event true (make_log_line cluster occ env_vars)
        (clog_call first_log_line).
Proof.
  apply (records_are_of_occurrences plain_world json_loads_stub level_event
           true true false [first_kill_line] () (clog_call first_log_line)).
  - vm_compute. do 4 right. left.
  - reflexivity.
Defined.

(** ** A run in which nothing fails *)

Section Delivery.
Variable answer : forall c : call, outcome (reply c).
Variable json_loads : list N -> outcome pyval.
Variable DEFAULT_LOGLEVEL : str.
Variable yelp_meteorite_imported : bool.
Variable containerd : bool.
Variables cluster pool : str.
Variable env_of : str -> gmap str str.




End Delivery.



(** ** Lines without a marker *)

Lemma offsets_from_none_app (marker a b : str) : forall n,
  offsets_from n marker (a ++ marker ++ b) ≠ [].
Proof.
  intros n H. pose proof (offsets_from_complete marker a b n) as Hin.
  rewrite H in Hin. by apply elem_of_nil in Hin.
Qed.

(** A text that lacks the start of a marker lacks the marker. *)
Lemma offsets_longer_marker (m1 m2 line : str) :
  offsets m1 line = [] -> offsets (m1 ++ m2) line = [].
Proof.
  unfold offsets. generalize 0. induction line as [|a line IH]; intros n H.
  - simpl in *. destruct m1; [done|]. done.
  - simpl in *.
    apply app_eq_nil in H as [H1 H2]. rewrite (IH _ H2), app_nil_r.
    destruct (is_prefix m1 (a :: line)) eqn:E1; [done|].
    assert (is_prefix (m1 ++ m2) (a :: line) = false) as ->; [|done].
    clear -E1. revert E1. generalize (a :: line). clear.
    induction m1 as [|x m1 IH]; intros l E; [done|].
    destruct l as [|y l]; [done|]. simpl in *.
    destruct (Ascii.eqb x y); [by apply IH|done].
Qed.

Lemma containerd_needs_marker line :
  offsets containerd_marker line = [] ->
  search oom_regex_kubernetes_containerd_systemd_cgroup line = None.
Proof.
  apply (search_needs_marker "task_memcg=/system.slice/"
           (kill_header ++ Star CDot :: (chars "oom-kill:" ++ [Star CDot]))
           (Star CDot :: (chars "nerdctl-" ++ Grp 3 (cat [Rep 64 CWord])
            :: Star CWord :: (chars ".scope," ++ [Star CDot; Eol])))).
Qed.

(** X16. A line with neither [Task] nor [task_memcg=/] in it is matched
    by no kill pattern: the scanner yields nothing for it, and only
    notes the process name if the line has one. *)
Theorem no_marker_no_kill (line process_name : str) (stdin : list str) :
  line ≠ [] ->
  offsets task_marker line = [] -> offsets memcg_marker line = [] ->
  no_kill line
  ∧ scan process_name (line :: stdin)
    = scan (note_process_name process_name line) stdin.
Proof.
  intros Hl Htask Hmemcg.
  assert (offsets kubepods_memcg line = []) as Hk
    by apply (offsets_longer_marker memcg_marker (lit "kubepods") _ Hmemcg).
  assert (offsets containerd_marker line = []) as Hc
    by apply (offsets_longer_marker memcg_marker (lit "system.slice/") _ Hmemcg).
  assert (no_kill line) as Hno.
  { unfold no_kill, event_detail_regexes, first_match.
    by rewrite (docker_needs_task _ Htask), (kubernetes_needs_task _ Htask),
      (structured_needs_memcg _ Hk), (systemd_needs_memcg _ Hk),
      (containerd_needs_marker _ Hc). }
  split; [done|]. by apply scan_cons_none.
Qed.

Lemma no_marker_no_kill_witness :
  no_kill name_line_host_a
  ∧ scan [] [name_line_host_a] = scan (lit "java") [].
Proof.
  apply (no_marker_no_kill name_line_host_a [] []); done.
Defined.

(** ** The line that names a process *)

Section Greedy.
Context {R : Type}.

(** Greedy repetition returns what the rest of the pattern makes of the
    longest run it accepts. *)
Lemma star_run_greedy c s : forall n (k : nat -> str -> option R) res,
  star_run c n s k = Some res ->
  ∃ w s', s = w ++ s' ∧ Forall (fun a => in_cls c a = true) w
    ∧ k (n + length w) s' = Some res
    ∧ forall w2 s2, s = w2 ++ s2 -> Forall (fun a => in_cls c a = true) w2 ->
        length w < length w2 -> k (n + length w2) s2 = None.
Proof.
  induction s as [|a s IH]; intros n k res H; simpl in H.
  - exists [], []. simpl. rewrite Nat.add_0_r. repeat split; try done.
    intros w2 s2 E _ L. symmetry in E. apply app_eq_nil in E as [-> _].
    simpl in L. lia.
  - assert (forall w2 s2, a :: s = w2 ++ s2 -> 0 < length w2 ->
              ∃ w2', w2 = a :: w2' ∧ s = w2' ++ s2) as Hsplit.
    { intros [|b w2] s2 E L; [simpl in L; lia|].
      injection E as <- ->. by exists w2. }
    destruct (in_cls c a) eqn:Ha.
    + destruct (star_run c (S n) s k) as [x|] eqn:Hs.
      * injection H as ->. apply IH in Hs as (w & s' & -> & Hw & Hk & Hmax).
        exists (a :: w), s'. simpl. split; [done|]. split; [by constructor|].
        split; [by rewrite <- Nat.add_succ_comm|].
        intros w2 s2 E Hw2 L.
        destruct (Hsplit w2 s2 E) as (w2' & -> & E'); [lia|].
        inversion Hw2; subst. simpl in L |- *.
        rewrite <- Nat.add_succ_comm. apply Hmax; [done|done|lia].
      * exists [], (a :: s). simpl. rewrite Nat.add_0_r.
        repeat split; try done. intros w2 s2 E Hw2 L.
        destruct (Hsplit w2 s2 E L) as (w2' & -> & ->).
        inversion Hw2; subst. simpl.
        destruct (k (n + S (length w2')) s2) as [y|] eqn:Hy; [|done].
        destruct (star_run_complete c w2' (S n) s2 k) as [z Hz]; [done| |].
        -- rewrite Nat.add_succ_comm, Hy. by eexists.
        -- congruence.
    + exists [], (a :: s). simpl. rewrite Nat.add_0_r.
      repeat split; try done. intros w2 s2 E Hw2 L.
      destruct (Hsplit w2 s2 E L) as (w2' & -> & _).
      inversion Hw2; subst. congruence.
Qed.
End Greedy.

Lemma process_name_shape :
  process_name_regex
  = cat ((Bol :: name_header) ++ Star CDot :: name_body).
Proof. reflexivity. Qed.

(** What the pattern asks of the head of a line. *)
Lemma den_name_header line st1 :
  den (cat name_header) (MState 0 line []) st1 ->
  ∃ ts host, well_started line ts host (rest st1) ∧ grps st1 = [].
Proof.
  unfold name_header. intros H.
  apply den_cons_plus in H as (ts & s1 & Hts & Hd & Hr & H). simpl in Hr.
  apply den_cons_cls in H as (sp1 & s2 & H1 & Hr1 & H). simpl in Hr1.
  apply den_cons_plus in H as (host & s3 & Hh & Hhc & Hr2 & H). simpl in Hr2.
  apply (den_cons_cls _ []) in H as (sp2 & msg & H2 & Hr3 & H). simpl in Hr3.
  simpl in H. subst. exists ts, host. split; [|done].
  exists sp1, sp2. repeat split; done.
Qed.

Lemma den_name_header_intro ts host msg :
  ts ≠ [] -> Forall (fun a => is_digit a = true) ts ->
  host ≠ [] -> Forall (fun a => in_cls host_set a = true) host ->
  ∃ st1, den (cat name_header)
           (MState 0 (ts ++ " "%char :: host ++ " "%char :: msg) []) st1
         ∧ rest st1 = msg ∧ grps st1 = [].
Proof.
  intros Nts Hts Nh Hh. unfold name_header. eexists. split.
  - apply den_cons_plus. eexists ts, _. split; [done|]. split; [done|].
    split; [reflexivity|].
    apply den_cons_cls. eexists " "%char, _. split; [done|].
    split; [reflexivity|].
    apply den_cons_plus. eexists host, _. split; [done|]. split; [done|].
    split; [reflexivity|].
    apply (den_cons_cls _ []). eexists " "%char, msg. split; [done|].
    split; [reflexivity|]. reflexivity.
  - done.
Qed.

(** Every way to match what follows [.*] reads a bracket, a blank, the
    name, a blank and the marker. *)
Lemma den_name_body_inv st st' :
  den (cat name_body) st st' ->
  ∃ s1 g s2 s3 x,
    rest st = "]"%char :: s1 :: g ++ s2 :: invoked_marker ++ s3
              :: lit "oom-killer:" ++ x
    ∧ g ≠ [] ∧ grps st' = (1, g) :: grps st.
Proof.
  unfold name_body, invoked_marker. intros H.
  apply den_cons_cls in H as (b & r1 & Hb & R1 & H).
  apply Ascii.eqb_eq in Hb. subst b.
  apply den_cons_cls in H as (s1 & r2 & _ & R2 & H). simpl in R2. subst r1.
  apply den_cons_grp_plus in H as (g & r3 & Ng & _ & R3 & H). simpl in R3.
  subst r2.
  apply den_cons_cls in H as (s2 & r4 & _ & R4 & H). simpl in R4. subst r3.
  apply den_chars in H as (r5 & R5 & H). simpl in R5. subst r4.
  apply den_cons_cls in H as (s3 & r6 & _ & R6 & H). simpl in R6. subst r5.
  apply (den_chars "oom-killer:" []) in H as (x & R7 & H). simpl in R7.
  subst r6. simpl in H. subst st'.
  exists s1, g, s2, s3, x. rewrite R1. by repeat split.
Qed.

Lemma den_name_body_intro st name tail :
  rest st = lit "] " ++ name ++ " "%char :: invoked_marker
            ++ lit " oom-killer:" ++ tail ->
  name ≠ [] -> one_line name ->
  ∃ st', den (cat name_body) st st'.
Proof.
  unfold name_body, invoked_marker. intros R Nn Hn. eexists.
  apply den_cons_cls. eexists "]"%char, _. split; [done|]. split; [exact R|].
  apply den_cons_cls. eexists " "%char, _. split; [done|]. split; [reflexivity|].
  apply den_cons_grp_plus. eexists name, _. split; [done|]. split; [done|].
  split; [reflexivity|].
  apply den_cons_cls. eexists " "%char, _. split; [done|]. split; [reflexivity|].
  apply den_chars. eexists. split; [reflexivity|].
  apply den_cons_cls. eexists " "%char, _. split; [done|]. split; [reflexivity|].
  apply (den_chars "oom-killer:" []). eexists tail. split; [reflexivity|].
  reflexivity.
Qed.

(** X15. A line [<ts> <host> ...] <name> invoked oom-killer:...], with
    [invoked] once in the message and no closing bracket in the name,
    names the process [name]: the name is what stands between the last
    closing bracket with a blank after it and the blank before
    [invoked], blanks inside it included. *)
Theorem process_name_of_line (ts host pre name tail : str) :
  ts ≠ [] -> Forall (fun a => is_digit a = true) ts ->
  host ≠ [] -> Forall (fun a => in_cls host_set a = true) host ->
  one_line pre -> name ≠ [] -> one_line name -> "]"%char ∉ name ->
  offsets invoked_marker (name_message pre name tail)
  = [length (pre ++ lit "] " ++ name ++ [" "%char])] ->
  names_process name (name_line ts host pre name tail).
Proof.
  intros Nts Hts Nh Hh Hpre Nn Hn Hbr Hoff.
  set (msg := name_message pre name tail) in *.
  set (line := name_line ts host pre name tail).
  set (after := lit "] " ++ name ++ " "%char :: invoked_marker
                ++ lit " oom-killer:" ++ tail).
  assert (well_started line ts host msg) as Hw.
  { exists " "%char, " "%char. repeat split; done. }
  assert (msg = (pre ++ lit "] " ++ name ++ [" "%char]) ++ invoked_marker
                ++ lit " oom-killer:" ++ tail) as Emsg.
  { unfold msg, name_message. by rewrite <- !app_assoc. }
  unfold names_process. rewrite process_name_shape.
  change (cat ((Bol :: name_header) ++ Star CDot :: name_body))
    with (cat (Bol :: name_header ++ Star CDot :: name_body)).
  (* after [.*] has read [pre] the rest of the pattern can match *)
  assert (forall st, rest st = after -> ∃ st', den (cat name_body) st st')
    as Hafter.
  { intros st R. by apply (den_name_body_intro st name tail). }
  (* so the search finds a match *)
  assert (is_Some (search (cat (Bol :: name_header ++ Star CDot :: name_body))
                     line)) as [g Hg].
  { destruct (den_name_header_intro ts host msg Nts Hts Nh Hh)
      as (st1 & Hd1 & R1 & G1).
    destruct (Hafter (advance pre after st1)) as (st' & Hd2); [done|].
    apply (search_bol_complete _ _ st'). apply den_cat_app. exists st1.
    split; [exact Hd1|]. apply den_cons_star. exists pre, after.
    split; [done|]. split; [by rewrite R1|done]. }
  exists g. split; [exact Hg|].
  (* what it finds has read the longest run that lets the rest match *)
  rewrite search_bol_match_at in Hg. unfold match_at in Hg.
  apply (run_sound_prefix (Bol :: name_header)) in Hg as (st1 & Hd1 & Hg).
  apply den_cons_bol in Hd1 as [_ Hd1].
  apply den_name_header in Hd1 as (ts' & host' & Hw' & G1).
  destruct (well_started_unique _ _ _ _ _ _ _ Hw Hw') as (-> & -> & R1).
  change (star_run CDot (pos st1) (rest st1)
            (fun n s => run (cat name_body) (MState n s (grps st1))
                          (fun st => Some (grps st))) = Some g) in Hg.
  apply star_run_greedy in Hg as (w & s' & Rw & Hdot & Hg & Hmax).
  rewrite R1 in Rw.
  assert (length pre <= length w) as Hlen.
  { destruct (Nat.le_gt_cases (length pre) (length w)) as [|Hlt]; [done|].
    exfalso. specialize (Hmax pre after).
    rewrite R1 in Hmax. specialize (Hmax eq_refl Hpre Hlt).
    destruct (Hafter (MState (pos st1 + length pre) after (grps st1)))
      as (st' & Hd); [done|].
    destruct (run_complete _ _ _ (fun st => Some (grps st)) Hd) as [x Hx];
      [done|]. congruence. }
  apply run_sound in Hg as (st' & Hd & Hk). injection Hk as <-.
  apply den_name_body_inv in Hd as (s1 & g1 & s2 & s3 & x & R & Ng & ->).
  simpl in R. subst s'. rewrite G1. unfold group_str, group. simpl.
  (* the marker is where it is expected *)
  assert (msg = (w ++ "]"%char :: s1 :: g1 ++ [s2]) ++ invoked_marker
                ++ s3 :: lit "oom-killer:" ++ x) as Emsg'.
  { rewrite Rw, <- !app_assoc. simpl. by rewrite <- !app_assoc. }
  assert (length (w ++ "]"%char :: s1 :: g1 ++ [s2])
          = length (pre ++ lit "] " ++ name ++ [" "%char])) as Hl.
  { pose proof (offsets_complete invoked_marker
                  (w ++ "]"%char :: s1 :: g1 ++ [s2])
                  (s3 :: lit "oom-killer:" ++ x)) as Hin.
    rewrite <- Emsg', Hoff in Hin. by apply list_elem_of_singleton in Hin. }
  rewrite Emsg in Emsg'. apply app_inj_1 in Emsg' as [E _]; [|done].
  (* and [.*] has read [pre] and no more *)
  assert (w = pre ++ drop (length pre) w) as Ew.
  { rewrite <- (take_drop (length pre) w) at 1. f_equal.
    apply (f_equal (take (length pre))) in E.
    rewrite take_app_length in E. by rewrite take_app_le in E by lia. }
  rewrite Ew, <- !app_assoc in E. apply app_inv_head in E.
  destruct (drop (length pre) w) as [|b w'] eqn:Ed.
  - simpl in E. injection E as _ E. by apply app_inj_tail in E as [-> _].
  - exfalso. simpl in E. injection E as _ E.
    assert ("]"%char ∈ " "%char :: name ++ [" "%char]) as Hin.
    { rewrite E. apply elem_of_app. right. by left. }
    apply elem_of_cons in Hin as [Hin|Hin]; [done|].
    apply elem_of_app in Hin as [Hin|Hin]; [done|].
    by apply list_elem_of_singleton in Hin.
Qed.

Lemma process_name_of_line_witness :
  names_process Named.name
    (name_line Named.ts Named.host Named.pre Named.name Named.tail).
Proof.
  apply process_name_of_line; try done; try (by repeat constructor).
  by apply (bool_decide_unpack _).
Defined.

(** * The command of [docker push] *)

(** ** The lexer on plain text *)

Lemma shell_plain_inv a :
  shell_plain a = true ->
  PushToRegistry.whitespace a = false ∧ PushToRegistry.quotes a = false
  ∧ PushToRegistry.escape a = false.
Proof.
  unfold shell_plain. intros H. apply negb_true_iff in H.
  apply orb_false_iff in H as [H H3]. apply orb_false_iff in H as [H1 H2].
  done.
Qed.

(** In a token, plain characters are added to it. *)
Lemma lex_plain_word (w : str) : forall s escapedstate token quoted,
  Forall (fun a => shell_plain a = true) w ->
  PushToRegistry.lex (w ++ s) PushToRegistry.InWord escapedstate token quoted
  = PushToRegistry.lex s PushToRegistry.InWord escapedstate (token ++ w) quoted.
Proof.
  induction w as [|a w IH]; intros s esc token quoted H.
  - by rewrite app_nil_r.
  - inversion H as [|? ? Ha H']; subst.
    destruct (shell_plain_inv a Ha) as (H1 & H2 & H3).
    simpl. rewrite H1, H2, H3. rewrite IH by done. by rewrite <- app_assoc.
Qed.

(** Between tokens, a plain character starts one. *)
Lemma lex_plain_start a s escapedstate token quoted :
  shell_plain a = true ->
  PushToRegistry.lex (a :: s) PushToRegistry.InBlank escapedstate token quoted
  = PushToRegistry.lex s PushToRegistry.InWord escapedstate [a] quoted.
Proof.
  intros Ha. destruct (shell_plain_inv a Ha) as (H1 & H2 & H3).
  simpl. rewrite H1, H2, H3. by destruct (PushToRegistry.wordchars a).
Qed.

(** A plain word before whitespace is a token, and the lexer goes on
    after it. *)
Lemma lex_word (w : str) sp s :
  w ≠ [] -> Forall (fun a => shell_plain a = true) w ->
  PushToRegistry.whitespace sp = true ->
  PushToRegistry.lex (w ++ sp :: s) PushToRegistry.InBlank
    PushToRegistry.InBlank [] false
  = match PushToRegistry.lex s PushToRegistry.InBlank
            PushToRegistry.InBlank [] false with
    | PushToRegistry.Returns tokens => PushToRegistry.Returns (w :: tokens)
    | PushToRegistry.Raises e => PushToRegistry.Raises e
    end.
Proof.
  intros Nw Hw Hsp. destruct w as [|a w]; [done|].
  inversion Hw as [|? ? Ha Hw']; subst.
  change ((a :: w) ++ sp :: s) with (a :: (w ++ sp :: s)).
  rewrite lex_plain_start, lex_plain_word by done.
  simpl. by rewrite Hsp.
Qed.

(** A plain word at the end of the input is the last token. *)
Lemma lex_last_word (w : str) :
  w ≠ [] -> Forall (fun a => shell_plain a = true) w ->
  PushToRegistry.lex w PushToRegistry.InBlank PushToRegistry.InBlank [] false
  = PushToRegistry.Returns [w].
Proof.
  intros Nw Hw. destruct w as [|a w]; [done|].
  inversion Hw as [|? ? Ha Hw']; subst.
  rewrite lex_plain_start by done.
  rewrite <- (app_nil_r w) at 1. by rewrite lex_plain_word.
Qed.

Lemma image_plain name commit :
  Forall (fun a => shell_plain a = true) name ->
  Forall (fun a => shell_plain a = true) commit ->
  Forall (fun a => shell_plain a = true) (image name commit).
Proof.
  intros Hn Hc. unfold image.
  apply Forall_app. split; [by repeat constructor|].
  apply Forall_app. split; [done|].
  apply Forall_app. split; [by repeat constructor|done].
Qed.

Lemma build_command_text name commit :
  PushToRegistry.build_command name commit
  = PushToRegistry.lex
      (lit "docker" ++ " "%char :: lit "push" ++ " "%char :: image name commit)
      PushToRegistry.InBlank PushToRegistry.InBlank [] false.
Proof. reflexivity. Qed.

(** X17. For a service name and a commit without whitespace, quotes or
    backslashes, [build_command] returns the three words [docker],
    [push] and [docker-paasta.yelpcorp.com:443/<name>:paasta-<commit>]. *)
Theorem build_command_plain (name commit : str) :
  Forall (fun a => shell_plain a = true) name ->
  Forall (fun a => shell_plain a = true) commit ->
  PushToRegistry.build_command name commit
  = PushToRegistry.Returns (push_command name commit).
Proof.
  intros Hn Hc. rewrite build_command_text.
  rewrite lex_word; [|done|by repeat constructor|done].
  rewrite lex_word; [|done|by repeat constructor|done].
  rewrite lex_last_word; [done|by unfold image|by apply image_plain].
Qed.

Lemma build_command_plain_witness :
  PushToRegistry.build_command (lit "example_service") (lit "abc123")
  = PushToRegistry.Returns
      [lit "docker"; lit "push";
       lit "docker-paasta.yelpcorp.com:443/example_service:paasta-abc123"].
Proof.
  apply (build_command_plain (lit "example_service") (lit "abc123"));
    by repeat constructor.
Defined.

(** In a quotation, plain characters are added to the token. *)
Lemma lex_plain_quote (w : str) q : forall s escapedstate token quoted,
  PushToRegistry.quotes q = true ->
  Forall (fun a => shell_plain a = true) w ->
  PushToRegistry.lex (w ++ s) (PushToRegistry.InQuote q) escapedstate token
    quoted
  = PushToRegistry.lex s (PushToRegistry.InQuote q) escapedstate (token ++ w)
      true.
Proof.
  intros s esc token quoted Hq.
  revert s token quoted. induction w as [|a w IH]; intros s token quoted H.
  - rewrite app_nil_r. simpl. destruct s as [|b s]; [done|]. simpl.
    by destruct (Ascii.eqb b q), (PushToRegistry.escape b
                                  && PushToRegistry.escapedquotes q).
  - inversion H as [|? ? Ha H']; subst.
    destruct (shell_plain_inv a Ha) as (H1 & H2 & H3).
    assert (Ascii.eqb a q = false) as Hne.
    { destruct (Ascii.eqb_spec a q) as [->|]; [congruence|done]. }
    simpl. rewrite Hne, H3. simpl. rewrite IH by done.
    by rewrite <- app_assoc.
Qed.

(** X18. [build_command] does not quote what it is given: whitespace in
    the commit ends the image and what follows is a further word of the
    command, and a quote that is not closed makes [shlex.split] raise
    [ValueError]. *)
Theorem build_command_does_not_quote :
  (forall (name c1 c2 : str) (sp : ascii),
      Forall (fun a => shell_plain a = true) name ->
      Forall (fun a => shell_plain a = true) c1 ->
      PushToRegistry.whitespace sp = true ->
      c2 ≠ [] -> Forall (fun a => shell_plain a = true) c2 ->
      PushToRegistry.build_command name (c1 ++ sp :: c2)
      = PushToRegistry.Returns (push_command name c1 ++ [c2]))
  ∧ (forall (name c1 c2 : str) (q : ascii),
      Forall (fun a => shell_plain a = true) name ->
      Forall (fun a => shell_plain a = true) c1 ->
      PushToRegistry.quotes q = true ->
      Forall (fun a => shell_plain a = true) c2 ->
      PushToRegistry.build_command name (c1 ++ q :: c2)
      = PushToRegistry.Raises PushToRegistry.ValueError).
Proof.
  split.
  - intros name c1 c2 sp Hn H1 Hsp N2 H2. rewrite build_command_text.
    rewrite lex_word; [|done|by repeat constructor|done].
    rewrite lex_word; [|done|by repeat constructor|done].
    assert (image name (c1 ++ sp :: c2) = image name c1 ++ sp :: c2) as ->.
    { unfold image. by rewrite <- !app_assoc. }
    rewrite lex_word; [|by unfold image|by apply image_plain|done].
    by rewrite lex_last_word.
  - intros name c1 c2 q Hn H1 Hq H2. rewrite build_command_text.
    rewrite lex_word; [|done|by repeat constructor|done].
    rewrite lex_word; [|done|by repeat constructor|done].
    assert (image name (c1 ++ q :: c2) = image name c1 ++ q :: c2) as ->.
    { unfold image. by rewrite <- !app_assoc. }
    pose proof (image_plain name c1 Hn H1) as Hi.
    destruct (image name c1) as [|a w] eqn:E; [done|].
    inversion Hi as [|? ? Ha Hw]; subst.
    change ((a :: w) ++ q :: c2) with (a :: (w ++ q :: c2)).
    rewrite lex_plain_start, lex_plain_word by done.
    assert (PushToRegistry.whitespace q = false) as Hws.
    { unfold PushToRegistry.quotes in Hq. apply orb_true_iff in Hq as [Hq|Hq];
        apply Ascii.eqb_eq in Hq; by subst q. }
    simpl. rewrite Hws, Hq.
    rewrite <- (app_nil_r c2), lex_plain_quote by done. done.
Qed.

Lemma build_command_does_not_quote_witness :
  PushToRegistry.build_command (lit "example_service")
    (lit "abc123 --disable-content-trust")
  = PushToRegistry.Returns
      [lit "docker"; lit "push";
       lit "docker-paasta.yelpcorp.com:443/example_service:paasta-abc123";
       lit "--disable-content-trust"]
  ∧ PushToRegistry.build_command (lit "example_service") (lit "abc'123")
    = PushToRegistry.Raises PushToRegistry.ValueError.
Proof.
  split.
  - apply (proj1 build_command_does_not_quote (lit "example_service")
             (lit "abc123") (lit "--disable-content-trust") " "%char);
      try done; by repeat constructor.
  - apply (proj2 build_command_does_not_quote (lit "example_service")
             (lit "abc") (lit "123") "'"%char);
      try done; by repeat constructor.
Defined.

(** ** [paasta_push_to_registry] *)

Lemma startswith_app (p s : str) : PushToRegistry.startswith (p ++ s) p = true.
Proof.
  induction p as [|a p IH]; simpl; [by destruct s|].
  by rewrite Ascii.eqb_refl.
Qed.

Lemma split_once_unfold (sep before s : str) :
  PushToRegistry.split_once sep before s
  = if PushToRegistry.startswith s sep then [before; drop (length sep) s]
    else match s with
         | [] => [before]
         | a :: s' => PushToRegistry.split_once sep (before ++ [a]) s'
         end.
Proof. by destruct s. Qed.

(** The name the function goes on with. *)
Lemma service_name_computed (service name : str) :
  service_name_of service name ->
  match service with
  | [] => PushToRegistry.Returns service
  | _ :: _ =>
      if PushToRegistry.startswith service (lit "services-")
      then PushToRegistry.index
             (PushToRegistry.split_once (lit "services-") [] service) 1
      else PushToRegistry.Returns service
  end = PushToRegistry.Returns name.
Proof.
  intros [->|[H ->]].
  - change (lit "services-" ++ name)
      with ("s"%char :: (lit "ervices-" ++ name)) at 1.
    cbv iota. rewrite startswith_app, split_once_unfold, startswith_app.
    by rewrite drop_app_length.
  - destruct service as [|a service]; [done|]. by rewrite H.
Qed.

Section Push.
Context {W : Type}.
Variable respond :
  forall c : PushToRegistry.call,
    W -> PushToRegistry.outcome (PushToRegistry.reply c) * W.

Lemma push_perform_returns (c : PushToRegistry.call)
    (s : PushToRegistry.run_state) (v : PushToRegistry.reply c) (w : W) :
  respond c (PushToRegistry.world s) = (PushToRegistry.Returns v, w) ->
  PushToRegistry.perform respond c s
  = (PushToRegistry.Returns v,
     PushToRegistry.RunState w (PushToRegistry.calls s ++ [c])).
Proof. unfold PushToRegistry.perform. by intros ->. Qed.

Lemma push_perform_raises (c : PushToRegistry.call)
    (s : PushToRegistry.run_state) (e : PushToRegistry.exn) (w : W) :
  respond c (PushToRegistry.world s) = (PushToRegistry.Raises e, w) ->
  PushToRegistry.perform respond c s
  = (PushToRegistry.Raises e,
     PushToRegistry.RunState w (PushToRegistry.calls s ++ [c])).
Proof. unfold PushToRegistry.perform. by intros ->. Qed.

(** X19. The service that is validated is [args.service] without one
    leading [services-]; when [validate_service_name] raises, the
    exception leaves the function and nothing else is done: nothing is
    printed and no command is run. *)
Theorem invalid_service_runs_nothing (service name commit : str)
    (s : PushToRegistry.run_state) (e : PushToRegistry.exn) (w1 : W) :
  service_name_of service name ->
  respond (PushToRegistry.ValidateServiceName name) (PushToRegistry.world s)
  = (PushToRegistry.Raises e, w1) ->
  PushToRegistry.paasta_push_to_registry respond service commit s
  = (PushToRegistry.Raises e,
     PushToRegistry.RunState w1
       (PushToRegistry.calls s ++ [PushToRegistry.ValidateServiceName name])).
Proof.
  intros Hname Hv.
  unfold PushToRegistry.paasta_push_to_registry, PushToRegistry.bind,
    PushToRegistry.lift.
  rewrite (service_name_computed service name Hname).
  by rewrite (push_perform_raises _ _ _ _ Hv).
Qed.

(** What is left to do once the service has been validated and the
    command printed. *)
Lemma push_unfold (service name commit : str)
    (s : PushToRegistry.run_state) (w1 : W) :
  service_name_of service name ->
  Forall (fun a => shell_plain a = true) name ->
  Forall (fun a => shell_plain a = true) commit ->
  respond (PushToRegistry.ValidateServiceName name) (PushToRegistry.world s)
  = (PushToRegistry.Returns tt, w1) ->
  PushToRegistry.paasta_push_to_registry respond service commit s
  = PushToRegistry.try_except
      (PushToRegistry.bind
         (PushToRegistry.perform respond
            (PushToRegistry.CheckOutput (push_command name commit)))
         (fun _ => PushToRegistry.ret tt))
      (fun exc =>
         match exc with
         | PushToRegistry.CalledProcessError returncode output =>
             Some (PushToRegistry.bind
                     (PushToRegistry.print (error_line output returncode))
                     (fun _ => PushToRegistry.raise
                                 (PushToRegistry.SystemExit returncode)))
         | _ => None
         end)
      (PushToRegistry.RunState w1
         (PushToRegistry.calls s
          ++ [PushToRegistry.ValidateServiceName name;
              PushToRegistry.Print (info_line (push_command name commit))])).
Proof.
  intros Hname Hn Hc Hv.
  unfold PushToRegistry.paasta_push_to_registry.
  unfold PushToRegistry.bind at 1 2 3 4. unfold PushToRegistry.lift.
  rewrite (service_name_computed service name Hname).
  rewrite (push_perform_returns _ _ _ _ Hv).
  rewrite (build_command_plain name commit Hn Hc).
  unfold PushToRegistry.print at 1. simpl PushToRegistry.world.
  simpl PushToRegistry.calls. by rewrite <- app_assoc.
Qed.

(** X20. For a service name and a commit without whitespace, quotes or
    backslashes, once the service has been validated the function
    prints the command and runs [docker push] of the image, and nothing
    else when that succeeds; when the command fails it prints the output
    and the return code and exits with that return code; an exception of
    another kind leaves the function as it is, with nothing printed
    after the command. *)
Theorem push_runs_the_command (service name commit : str)
    (s : PushToRegistry.run_state) (w1 : W) :
  service_name_of service name ->
  Forall (fun a => shell_plain a = true) name ->
  Forall (fun a => shell_plain a = true) commit ->
  respond (PushToRegistry.ValidateServiceName name) (PushToRegistry.world s)
  = (PushToRegistry.Returns tt, w1) ->
  (forall output w2,
      respond (PushToRegistry.CheckOutput (push_command name commit)) w1
      = (PushToRegistry.Returns output, w2) ->
      PushToRegistry.paasta_push_to_registry respond service commit s
      = (PushToRegistry.Returns tt,
         PushToRegistry.RunState w2
           (PushToRegistry.calls s ++ push_calls name commit)))
  ∧ (forall returncode output w2,
      respond (PushToRegistry.CheckOutput (push_command name commit)) w1
      = (PushToRegistry.Raises
           (PushToRegistry.CalledProcessError returncode output), w2) ->
      PushToRegistry.paasta_push_to_registry respond service commit s
      = (PushToRegistry.Raises (PushToRegistry.SystemExit returncode),
         PushToRegistry.RunState w2
           (PushToRegistry.calls s ++ push_calls name commit
            ++ [PushToRegistry.Print (error_line output returncode)])))
  ∧ (forall e w2,
      respond (PushToRegistry.CheckOutput (push_command name commit)) w1
      = (PushToRegistry.Raises e, w2) ->
      (forall returncode output,
          e ≠ PushToRegistry.CalledProcessError returncode output) ->
      PushToRegistry.paasta_push_to_registry respond service commit s
      = (PushToRegistry.Raises e,
         PushToRegistry.RunState w2
           (PushToRegistry.calls s ++ push_calls name commit))).
Proof.
  intros Hname Hn Hc Hv.
  rewrite (push_unfold service name commit s w1 Hname Hn Hc Hv).
  unfold PushToRegistry.try_except, PushToRegistry.bind.
  split; [|split].
  - intros output w2 H.
    rewrite (push_perform_returns _ (PushToRegistry.RunState w1 _) _ _ H).
    unfold PushToRegistry.ret. simpl. by rewrite <- app_assoc.
  - intros returncode output w2 H.
    rewrite (push_perform_raises _ (PushToRegistry.RunState w1 _) _ _ H).
    unfold PushToRegistry.print, PushToRegistry.raise. simpl.
    by rewrite <- !app_assoc.
  - intros e w2 H Hne.
    rewrite (push_perform_raises _ (PushToRegistry.RunState w1 _) _ _ H).
    simpl. destruct e; try (by rewrite <- app_assoc).
    by destruct (Hne returncode output).
Qed.
End Push.

Lemma invalid_service_runs_nothing_witness :
  PushToRegistry.paasta_push_to_registry unknown_service_world
    (lit "services-example_service") (lit "abc123")
    (PushToRegistry.RunState tt [])
  = (PushToRegistry.Raises (PushToRegistry.OtherError (lit "NoSuchService")),
     PushToRegistry.RunState tt
       [PushToRegistry.ValidateServiceName (lit "example_service")]).
Proof.
  apply (invalid_service_runs_nothing unknown_service_world
           (lit "services-example_service") (lit "example_service")
           (lit "abc123") (PushToRegistry.RunState tt [])).
  - by left.
  - reflexivity.
Defined.

Lemma push_runs_the_command_witness :
  PushToRegistry.paasta_push_to_registry push_fails_world
    (lit "services-example_service") (lit "abc123")
    (PushToRegistry.RunState tt [])
  = (PushToRegistry.Raises (PushToRegistry.SystemExit 1),
     PushToRegistry.RunState tt
       (push_calls (lit "example_service") (lit "abc123")
        ++ [PushToRegistry.Print
              (error_line (lit "denied" ++ [newline]) 1)])).
Proof.
  apply (proj1 (proj2 (push_runs_the_command push_fails_world
                         (lit "services-example_service")
                         (lit "example_service") (lit "abc123")
                         (PushToRegistry.RunState tt []) tt
                         ltac:(by left)
                         ltac:(by repeat constructor)
                         ltac:(by repeat constructor)
                         eq_refl))).
  reflexivity.
Defined.
